(** * Layer 2 of the message processing stack (mbedtls MPS): configuration,
    serialization macros and the record-layer state machine.

    Sources: include/mbedtls/mps/common.h and include/mbedtls/mps/layer2.h. *)

From Stdlib Require Import ZArith List Bool Lia.
Import ListNotations.
Open Scope Z_scope.

(* ------------------------------------------------------------------------- *)
(** ** Constants (common.h, layer2.h) *)

(** [MBEDTLS_MPS_MSG_MAX] *)
Definition MBEDTLS_MPS_MSG_MAX : Z := 31.

(** [MBEDTLS_MPS_MSG_NONE], [_CCS], [_ALERT], [_HS], [_APP], [_ACK] *)
Definition MBEDTLS_MPS_MSG_NONE : Z := 0.
Definition MBEDTLS_MPS_MSG_CCS : Z := 20.
Definition MBEDTLS_MPS_MSG_ALERT : Z := 21.
Definition MBEDTLS_MPS_MSG_HS : Z := 22.
Definition MBEDTLS_MPS_MSG_APP : Z := 23.
Definition MBEDTLS_MPS_MSG_ACK : Z := 25.

(** [uint32_t] arithmetic wraps modulo 2^32. *)
Definition uint32 (x : Z) : Z := x mod 2 ^ 32.

(** The error codes returned by Layer 2 (error.h is not part of the
    sources; only the distinction between the codes matters here). *)
Inductive mps_ret :=
| MPS_OK
| MPS_ERR_INVALID_RECORD
| MPS_ERR_INVALID_ARGS
| MPS_ERR_UNEXPECTED_OPERATION
| MPS_ERR_WANT_READ
| MPS_ERR_WANT_WRITE
| MPS_ERR_OTHER.

Definition mps_ret_eqb (a b : mps_ret) : bool :=
  match a, b with
  | MPS_OK, MPS_OK
  | MPS_ERR_INVALID_RECORD, MPS_ERR_INVALID_RECORD
  | MPS_ERR_INVALID_ARGS, MPS_ERR_INVALID_ARGS
  | MPS_ERR_UNEXPECTED_OPERATION, MPS_ERR_UNEXPECTED_OPERATION
  | MPS_ERR_WANT_READ, MPS_ERR_WANT_READ
  | MPS_ERR_WANT_WRITE, MPS_ERR_WANT_WRITE
  | MPS_ERR_OTHER, MPS_ERR_OTHER => true
  | _, _ => false
  end.

(* ------------------------------------------------------------------------- *)
(** ** The content-type bitflags of [struct mbedtls_mps_l2_config]

    The other members of the configuration (Layer 1 handle, mode, version,
    size limits, PRNG, bad-MAC limit) are not touched by the functions
    modelled here and are left out. *)

Record mbedtls_mps_l2_config := {
  type_flag : Z;   (* uint32_t *)
  pause_flag : Z;  (* uint32_t *)
  merge_flag : Z;  (* uint32_t *)
  empty_flag : Z   (* uint32_t *)
}.

(** The configuration of a freshly initialised context: no content type. *)
Definition conf_zero : mbedtls_mps_l2_config :=
  {| type_flag := 0; pause_flag := 0; merge_flag := 0; empty_flag := 0 |}.

(** [MPS_L2_CONF_INV_PAUSE_FLAG], [_MERGE_FLAG], [_EMPTY_FLAG] *)
Definition MPS_L2_CONF_INV_PAUSE_FLAG (p : mbedtls_mps_l2_config) : bool :=
  Z.land (pause_flag p) (type_flag p) =? pause_flag p.
Definition MPS_L2_CONF_INV_MERGE_FLAG (p : mbedtls_mps_l2_config) : bool :=
  Z.land (merge_flag p) (type_flag p) =? merge_flag p.
Definition MPS_L2_CONF_INV_EMPTY_FLAG (p : mbedtls_mps_l2_config) : bool :=
  Z.land (empty_flag p) (type_flag p) =? empty_flag p.

Definition MPS_L2_CONF_INV (p : mbedtls_mps_l2_config) : bool :=
  MPS_L2_CONF_INV_PAUSE_FLAG p && MPS_L2_CONF_INV_MERGE_FLAG p
  && MPS_L2_CONF_INV_EMPTY_FLAG p.

(** The C expression [( x == 1 ) * mask]. *)
Definition flag_bit (x mask : Z) : Z := if x =? 1 then mask else 0.

(** [mps_l2_config_add_type] (layer2.h): returns the error code and the
    updated configuration. [type] is a [uint_fast8_t], the three switches
    are [uint8_t]. *)
Definition mps_l2_config_add_type (conf : mbedtls_mps_l2_config)
    (type pausing merging empty : Z) : mps_ret * mbedtls_mps_l2_config :=
  if type >=? MBEDTLS_MPS_MSG_MAX then (MPS_ERR_INVALID_RECORD, conf)
  else
    let mask := uint32 (Z.shiftl 1 type) in
    if negb (Z.land (type_flag conf) mask =? 0) then (MPS_ERR_INVALID_ARGS, conf)
    else
      (MPS_OK,
       {| type_flag := Z.lor (type_flag conf) mask;
          pause_flag := Z.lor (pause_flag conf) (flag_bit pausing mask);
          merge_flag := Z.lor (merge_flag conf) (flag_bit merging mask);
          empty_flag := Z.lor (empty_flag conf) (flag_bit empty mask) |}).

(** A sequence of [mps_l2_config_add_type] calls (type, pausing, merging,
    empty), each applied to the configuration the previous one left. *)
Fixpoint add_types (conf : mbedtls_mps_l2_config) (calls : list (Z * Z * Z * Z))
    : mbedtls_mps_l2_config :=
  match calls with
  | [] => conf
  | (t, p, m, e) :: rest => add_types (snd (mps_l2_config_add_type conf t p m e)) rest
  end.

(** Reference for a sequence of [mps_l2_config_add_type] calls: the
    switches (pausing, merging, empty) of the first call that names content
    type [n], if any. *)
Fixpoint add_types_first (n : Z) (calls : list (Z * Z * Z * Z)) : option (Z * Z * Z) :=
  match calls with
  | [] => None
  | (t, p, m, e) :: rest => if t =? n then Some (p, m, e) else add_types_first n rest
  end.

(* ------------------------------------------------------------------------- *)
(** ** Parsing and writing macros (common.h)

    A byte buffer is a list of bytes (each in [0, 256)); [dst] / [src] of a
    macro is the buffer together with an offset into it. The value side of a
    macro is the unsigned integer [*src] resp. [*dst]. *)

Definition uint8 (x : Z) : Z := x mod 2 ^ 8.
Definition uint16 (x : Z) : Z := x mod 2 ^ 16.
Definition uint64 (x : Z) : Z := x mod 2 ^ 64.

(** Byte [k] after [dst] is set to [b_k] (converted to [uint8_t]), for the
    bytes [bs] in order. *)
Definition buf_store (buf : list Z) (off : nat) (bs : list Z) : list Z :=
  firstn off buf ++ map uint8 bs ++ skipn (off + length bs) buf.

(** Byte [k] after [src]. *)
Definition buf_at (buf : list Z) (off k : nat) : Z := nth (off + k) buf 0.

(** [MPS_WRITE_UINT8_BE] copies the first byte of [src], i.e. the (only)
    byte of the [uint8_t] value. *)
Definition MPS_WRITE_UINT8_BE (v : Z) (buf : list Z) (off : nat) : list Z :=
  buf_store buf off [v].

Definition MPS_READ_UINT8_BE (buf : list Z) (off : nat) : Z :=
  buf_at buf off 0.

Definition MPS_WRITE_UINT16_BE (v : Z) (buf : list Z) (off : nat) : list Z :=
  buf_store buf off
    [Z.land (Z.shiftr v 8) 255; Z.land (Z.shiftr v 0) 255].

(** The [uint16_t] operands are promoted to [int]; the sum is stored in a
    [uint16_t]. *)
Definition MPS_READ_UINT16_BE (buf : list Z) (off : nat) : Z :=
  uint16 (Z.shiftl (buf_at buf off 0) 8 + Z.shiftl (buf_at buf off 1) 0).

Definition MPS_WRITE_UINT24_BE (v : Z) (buf : list Z) (off : nat) : list Z :=
  buf_store buf off
    [Z.land (Z.shiftr v 16) 255; Z.land (Z.shiftr v 8) 255;
     Z.land (Z.shiftr v 0) 255].

(** [uint32_t] shifts and additions, stored in a [uint32_t]. *)
Definition MPS_READ_UINT24_BE (buf : list Z) (off : nat) : Z :=
  uint32 (Z.shiftl (buf_at buf off 0) 16 + Z.shiftl (buf_at buf off 1) 8
          + Z.shiftl (buf_at buf off 2) 0).

Definition MPS_WRITE_UINT32_BE (v : Z) (buf : list Z) (off : nat) : list Z :=
  buf_store buf off
    [Z.land (Z.shiftr v 24) 255; Z.land (Z.shiftr v 16) 255;
     Z.land (Z.shiftr v 8) 255; Z.land (Z.shiftr v 0) 255].

Definition MPS_READ_UINT32_BE (buf : list Z) (off : nat) : Z :=
  uint32 (Z.shiftl (buf_at buf off 0) 24 + Z.shiftl (buf_at buf off 1) 16
          + Z.shiftl (buf_at buf off 2) 8 + Z.shiftl (buf_at buf off 3) 0).

Definition MPS_WRITE_UINT48_BE (v : Z) (buf : list Z) (off : nat) : list Z :=
  buf_store buf off
    [Z.land (Z.shiftr v 40) 255; Z.land (Z.shiftr v 32) 255;
     Z.land (Z.shiftr v 24) 255; Z.land (Z.shiftr v 16) 255;
     Z.land (Z.shiftr v 8) 255; Z.land (Z.shiftr v 0) 255].

(** [uint64_t] shifts and additions, stored in a [uint64_t]. *)
Definition MPS_READ_UINT48_BE (buf : list Z) (off : nat) : Z :=
  uint64 (Z.shiftl (buf_at buf off 0) 40 + Z.shiftl (buf_at buf off 1) 32
          + Z.shiftl (buf_at buf off 2) 24 + Z.shiftl (buf_at buf off 3) 16
          + Z.shiftl (buf_at buf off 4) 8 + Z.shiftl (buf_at buf off 5) 0).

(** The macro pair of width [w] (8, 16, 24, 32 or 48 bits). *)
Definition MPS_WRITE_UINT_BE (w v : Z) (buf : list Z) (off : nat) : list Z :=
  if w =? 8 then MPS_WRITE_UINT8_BE v buf off
  else if w =? 16 then MPS_WRITE_UINT16_BE v buf off
  else if w =? 24 then MPS_WRITE_UINT24_BE v buf off
  else if w =? 32 then MPS_WRITE_UINT32_BE v buf off
  else MPS_WRITE_UINT48_BE v buf off.

Definition MPS_READ_UINT_BE (w : Z) (buf : list Z) (off : nat) : Z :=
  if w =? 8 then MPS_READ_UINT8_BE buf off
  else if w =? 16 then MPS_READ_UINT16_BE buf off
  else if w =? 24 then MPS_READ_UINT24_BE buf off
  else if w =? 32 then MPS_READ_UINT32_BE buf off
  else MPS_READ_UINT48_BE buf off.

(** Big-endian reading of a byte string, most significant byte first: the
    meaning of "big-endian on the wire". *)
Definition be_value (bs : list Z) : Z := fold_left (fun acc b => acc * 256 + b) bs 0.

Definition is_byte (b : Z) : Prop := 0 <= b < 256.

(* ------------------------------------------------------------------------- *)
(** ** The Layer 2 context [struct mbedtls_mps_l2] (layer2.h)

    Only the members the state invariants talk about are kept: the
    configuration bitflags, the outgoing [clearing] / [flush] flags, writer
    content type and epoch and writer state, and the incoming reader slots
    with their content types, the [active] / [paused] pointers and the two
    reader states. Buffers, transforms and epochs are left out. *)

Inductive mbedtls_mps_l2_writer_state :=
| MBEDTLS_MPS_L2_WRITER_STATE_UNSET
| MBEDTLS_MPS_L2_WRITER_STATE_QUEUEING
| MBEDTLS_MPS_L2_WRITER_STATE_INTERNAL
| MBEDTLS_MPS_L2_WRITER_STATE_EXTERNAL.

Inductive mbedtls_mps_l2_reader_state :=
| MBEDTLS_MPS_L2_READER_STATE_UNSET
| MBEDTLS_MPS_L2_READER_STATE_PAUSED
| MBEDTLS_MPS_L2_READER_STATE_INTERNAL
| MBEDTLS_MPS_L2_READER_STATE_EXTERNAL.

Definition writer_state_eqb (a b : mbedtls_mps_l2_writer_state) : bool :=
  match a, b with
  | MBEDTLS_MPS_L2_WRITER_STATE_UNSET, MBEDTLS_MPS_L2_WRITER_STATE_UNSET
  | MBEDTLS_MPS_L2_WRITER_STATE_QUEUEING, MBEDTLS_MPS_L2_WRITER_STATE_QUEUEING
  | MBEDTLS_MPS_L2_WRITER_STATE_INTERNAL, MBEDTLS_MPS_L2_WRITER_STATE_INTERNAL
  | MBEDTLS_MPS_L2_WRITER_STATE_EXTERNAL, MBEDTLS_MPS_L2_WRITER_STATE_EXTERNAL => true
  | _, _ => false
  end.

Definition reader_state_eqb (a b : mbedtls_mps_l2_reader_state) : bool :=
  match a, b with
  | MBEDTLS_MPS_L2_READER_STATE_UNSET, MBEDTLS_MPS_L2_READER_STATE_UNSET
  | MBEDTLS_MPS_L2_READER_STATE_PAUSED, MBEDTLS_MPS_L2_READER_STATE_PAUSED
  | MBEDTLS_MPS_L2_READER_STATE_INTERNAL, MBEDTLS_MPS_L2_READER_STATE_INTERNAL
  | MBEDTLS_MPS_L2_READER_STATE_EXTERNAL, MBEDTLS_MPS_L2_READER_STATE_EXTERNAL => true
  | _, _ => false
  end.

(** The two members of [in.readers]; [in.active] and [in.paused] point to
    one of them each ([&readers[0]] or [&readers[1]]). *)
Inductive reader_slot := readers_0 | readers_1.

Definition reader_slot_eqb (a b : reader_slot) : bool :=
  match a, b with
  | readers_0, readers_0 | readers_1, readers_1 => true
  | _, _ => false
  end.

(** [ctx->out] *)
Record l2_out := {
  clearing : bool;
  flush : bool;
  writer_type : Z;   (* out.writer.type *)
  writer_epoch : Z;  (* out.writer.epoch *)
  state : mbedtls_mps_l2_writer_state
}.

(** [ctx->in]: the content types of [readers[0]] and [readers[1]]. *)
Record l2_in := {
  readers_0_type : Z;
  readers_1_type : Z;
  active : reader_slot;
  paused : reader_slot;
  active_state : mbedtls_mps_l2_reader_state;
  paused_state : mbedtls_mps_l2_reader_state
}.

Record mbedtls_mps_l2 := {
  conf : mbedtls_mps_l2_config;
  out : l2_out;
  in_ : l2_in
}.

(** [p->type] for [p] one of [&readers[0]], [&readers[1]]. *)
Definition reader_type (i : l2_in) (s : reader_slot) : Z :=
  match s with readers_0 => readers_0_type i | readers_1 => readers_1_type i end.

(** [p->type = t] *)
Definition set_reader_type (i : l2_in) (s : reader_slot) (t : Z) : l2_in :=
  match s with
  | readers_0 => {| readers_0_type := t; readers_1_type := readers_1_type i;
                    active := active i; paused := paused i;
                    active_state := active_state i; paused_state := paused_state i |}
  | readers_1 => {| readers_0_type := readers_0_type i; readers_1_type := t;
                    active := active i; paused := paused i;
                    active_state := active_state i; paused_state := paused_state i |}
  end.

Definition set_in_ptrs (i : l2_in) (a p : reader_slot)
    (ast pst : mbedtls_mps_l2_reader_state) : l2_in :=
  {| readers_0_type := readers_0_type i; readers_1_type := readers_1_type i;
     active := a; paused := p; active_state := ast; paused_state := pst |}.

Definition set_out (o : l2_out) (cl fl : bool) (t ep : Z)
    (st : mbedtls_mps_l2_writer_state) : l2_out :=
  {| clearing := cl; flush := fl; writer_type := t; writer_epoch := ep; state := st |}.

Definition with_conf (ctx : mbedtls_mps_l2) (c : mbedtls_mps_l2_config) : mbedtls_mps_l2 :=
  {| conf := c; out := out ctx; in_ := in_ ctx |}.
Definition with_out (ctx : mbedtls_mps_l2) (o : l2_out) : mbedtls_mps_l2 :=
  {| conf := conf ctx; out := o; in_ := in_ ctx |}.
Definition with_in (ctx : mbedtls_mps_l2) (i : l2_in) : mbedtls_mps_l2 :=
  {| conf := conf ctx; out := out ctx; in_ := i |}.

(** [( ( (uint32_t) 1u << type ) & flag ) != 0], the membership test of a
    content type in a bitflag used by the invariants of layer2.h. *)
Definition msg_type_in (type flag : Z) : bool :=
  negb (Z.land (uint32 (Z.shiftl 1 type)) flag =? 0).

(** The invariant macros of layer2.h, as written there. *)
Definition MPS_L2_INV_IF_CLEARING_NO_WRITE (p : mbedtls_mps_l2) : bool :=
  implb (clearing (out p))
    (writer_state_eqb (state (out p)) MBEDTLS_MPS_L2_WRITER_STATE_UNSET
     || writer_state_eqb (state (out p)) MBEDTLS_MPS_L2_WRITER_STATE_QUEUEING).

Definition MPS_L2_INV_IF_FLUSH_NO_WRITE (p : mbedtls_mps_l2) : bool :=
  implb (flush (out p))
    (writer_state_eqb (state (out p)) MBEDTLS_MPS_L2_WRITER_STATE_UNSET
     || writer_state_eqb (state (out p)) MBEDTLS_MPS_L2_WRITER_STATE_QUEUEING).

Definition MPS_L2_INV_OUT_ACTIVE_IS_VALID (p : mbedtls_mps_l2) : bool :=
  implb (negb (writer_state_eqb (state (out p)) MBEDTLS_MPS_L2_WRITER_STATE_UNSET))
    (msg_type_in (writer_type (out p)) (type_flag (conf p))).

(** Note the [!=]: as written, the macro asks for a pausable writer type
    whenever the writer is NOT queueing. *)
Definition MPS_L2_INV_OUT_QUEUEING_IS_PAUSABLE (p : mbedtls_mps_l2) : bool :=
  implb (negb (writer_state_eqb (state (out p)) MBEDTLS_MPS_L2_WRITER_STATE_QUEUEING))
    (msg_type_in (writer_type (out p)) (pause_flag (conf p))).

Definition MPS_L2_INV_IN_READERS_PERMUTATION (p : mbedtls_mps_l2) : bool :=
  (reader_slot_eqb (active (in_ p)) readers_0 && reader_slot_eqb (paused (in_ p)) readers_1)
  || (reader_slot_eqb (active (in_ p)) readers_1 && reader_slot_eqb (paused (in_ p)) readers_0).

Definition MPS_L2_INV_IN_PAUSED_IS_PAUSABLE (p : mbedtls_mps_l2) : bool :=
  implb (reader_state_eqb (paused_state (in_ p)) MBEDTLS_MPS_L2_READER_STATE_PAUSED)
    (msg_type_in (reader_type (in_ p) (paused (in_ p))) (pause_flag (conf p))).

Definition MPS_L2_INV_IN_NO_ACTIVE_PAUSED_NO_OVERLAP (p : mbedtls_mps_l2) : bool :=
  implb (negb (reader_state_eqb (active_state (in_ p)) MBEDTLS_MPS_L2_READER_STATE_UNSET)
         && reader_state_eqb (paused_state (in_ p)) MBEDTLS_MPS_L2_READER_STATE_PAUSED)
    (negb (reader_type (in_ p) (active (in_ p)) =? reader_type (in_ p) (paused (in_ p)))).




Definition MPS_L2_INV_IN_ACTIVE_STATE (p : mbedtls_mps_l2) : bool :=
  reader_state_eqb (active_state (in_ p)) MBEDTLS_MPS_L2_READER_STATE_UNSET
  || reader_state_eqb (active_state (in_ p)) MBEDTLS_MPS_L2_READER_STATE_INTERNAL
  || reader_state_eqb (active_state (in_ p)) MBEDTLS_MPS_L2_READER_STATE_EXTERNAL.

(* ------------------------------------------------------------------------- *)
(** ** The Layer 2 API

    The implementation of the Layer 2 API (layer2.c) is not among the
    sources: only [mps_l2_config_add_type] is defined in layer2.h. The other
    operations below are modelled from the specification of Layer 2
    (sections 4.2 and 4.3). What the transport, the transform and the
    reader / writer primitives answer is an input of each call. *)

(** Modelled from the spec: [mps_l2_init] (layer2.c, missing). The
    configuration holds no content type, no write or read is open, the
    writer and both readers carry content type [MBEDTLS_MPS_MSG_NONE],
    [active] is [&readers[0]] and [paused] is [&readers[1]]. *)
Definition mps_l2_init : mbedtls_mps_l2 :=
  {| conf := conf_zero;
     out := {| clearing := false; flush := false; writer_type := MBEDTLS_MPS_MSG_NONE;
               writer_epoch := 0; state := MBEDTLS_MPS_L2_WRITER_STATE_UNSET |};
     in_ := {| readers_0_type := MBEDTLS_MPS_MSG_NONE; readers_1_type := MBEDTLS_MPS_MSG_NONE;
               active := readers_0; paused := readers_1;
               active_state := MBEDTLS_MPS_L2_READER_STATE_UNSET;
               paused_state := MBEDTLS_MPS_L2_READER_STATE_UNSET |} |}.

(** What fetching the next incoming record yields: the transport has no
    complete record ([WantRead]), the record is rejected by header, length,
    transform or replay checks other than the content type, or a record of
    the given content type is available. *)
Inductive fetch_result :=
| fetch_want_read
| fetch_rejected
| fetch_record (type : Z).

(** What [reader_reclaim] reports: the fragment was fully consumed, bytes
    remain in it, or the reader had to be paused because the user asked for
    more data than the record held (spec 4.1). *)
Inductive reclaim_result :=
| reclaim_consumed
| reclaim_remaining
| reclaim_paused.

(** Modelled from the spec: routing of a new incoming record of type [t]
    to a reader, step 4 of [mps_l2_read_start] (spec 4.2). *)
Definition l2_in_route (ctx : mbedtls_mps_l2) (t : Z) : mps_ret * mbedtls_mps_l2 :=
  let i := in_ ctx in
  if reader_state_eqb (paused_state i) MBEDTLS_MPS_L2_READER_STATE_PAUSED
     && (reader_type i (paused i) =? t) then
    (* resume the paused reader: it becomes the active one *)
    (MPS_OK, with_in ctx (set_in_ptrs i (paused i) (active i)
                            MBEDTLS_MPS_L2_READER_STATE_EXTERNAL
                            MBEDTLS_MPS_L2_READER_STATE_UNSET))
  else if reader_state_eqb (active_state i) MBEDTLS_MPS_L2_READER_STATE_UNSET
          && (reader_type i (active i) =? t) then
    (* a fresh message of the type the active reader serves *)
    (MPS_OK, with_in ctx (set_in_ptrs i (active i) (paused i)
                            MBEDTLS_MPS_L2_READER_STATE_EXTERNAL (paused_state i)))
  else if reader_state_eqb (active_state i) MBEDTLS_MPS_L2_READER_STATE_UNSET then
    (* bind the active reader to the new content type *)
    let i' := set_reader_type i (active i) t in
    (MPS_OK, with_in ctx (set_in_ptrs i' (active i') (paused i')
                            MBEDTLS_MPS_L2_READER_STATE_EXTERNAL (paused_state i')))
  else if msg_type_in t (pause_flag (conf ctx))
          && msg_type_in (reader_type i (active i)) (pause_flag (conf ctx)) then
    (* both pausable: the active reader moves to the paused slot and the
       free slot serves the new type *)
    let i' := set_reader_type i (paused i) t in
    (MPS_OK, with_in ctx (set_in_ptrs i' (paused i) (active i)
                            MBEDTLS_MPS_L2_READER_STATE_EXTERNAL
                            MBEDTLS_MPS_L2_READER_STATE_PAUSED))
  else (MPS_ERR_INVALID_RECORD, ctx).

(** Modelled from the spec: [mps_l2_read_start] (spec 4.2). *)
Definition mps_l2_read_start (ctx : mbedtls_mps_l2) (fetch : fetch_result)
    : mps_ret * mbedtls_mps_l2 :=
  let i := in_ ctx in
  match active_state i with
  | MBEDTLS_MPS_L2_READER_STATE_EXTERNAL => (MPS_ERR_UNEXPECTED_OPERATION, ctx)
  | MBEDTLS_MPS_L2_READER_STATE_INTERNAL =>
      (MPS_OK, with_in ctx (set_in_ptrs i (active i) (paused i)
                              MBEDTLS_MPS_L2_READER_STATE_EXTERNAL (paused_state i)))
  | _ =>
      match fetch with
      | fetch_want_read => (MPS_ERR_WANT_READ, ctx)
      | fetch_rejected => (MPS_ERR_OTHER, ctx)
      | fetch_record t =>
          if msg_type_in t (type_flag (conf ctx)) then l2_in_route ctx t
          else (MPS_ERR_INVALID_RECORD, ctx)
      end
  end.

(** Modelled from the spec: [mps_l2_read_done] (spec 4.2, with the pausing
    of a reader from 4.1 and the glossary: only a pausable content type can
    be held back, and there is a single paused slot). *)
Definition mps_l2_read_done (ctx : mbedtls_mps_l2) (rc : reclaim_result)
    : mps_ret * mbedtls_mps_l2 :=
  let i := in_ ctx in
  if negb (reader_state_eqb (active_state i) MBEDTLS_MPS_L2_READER_STATE_EXTERNAL) then
    (MPS_ERR_UNEXPECTED_OPERATION, ctx)
  else
    match rc with
    | reclaim_consumed =>
        (MPS_OK, with_in ctx (set_in_ptrs i (active i) (paused i)
                                MBEDTLS_MPS_L2_READER_STATE_UNSET (paused_state i)))
    | reclaim_remaining =>
        if msg_type_in (reader_type i (active i)) (merge_flag (conf ctx)) then
          (MPS_OK, with_in ctx (set_in_ptrs i (active i) (paused i)
                                  MBEDTLS_MPS_L2_READER_STATE_INTERNAL (paused_state i)))
        else (MPS_ERR_INVALID_RECORD, ctx)
    | reclaim_paused =>
        if msg_type_in (reader_type i (active i)) (pause_flag (conf ctx))
           && reader_state_eqb (paused_state i) MBEDTLS_MPS_L2_READER_STATE_UNSET then
          (MPS_OK, with_in ctx (set_in_ptrs i (paused i) (active i)
                                  MBEDTLS_MPS_L2_READER_STATE_UNSET
                                  MBEDTLS_MPS_L2_READER_STATE_PAUSED))
        else (MPS_ERR_INVALID_RECORD, ctx)
    end.

(** Modelled from the spec: [l2_clear_pending] (spec 4.3, step 1 of
    [write_start]): dispatch the queued data into a record of the queued
    type and epoch, then flush the transport. [done] tells whether the
    transport took everything; if not, [WantWrite] is returned and
    [clearing] stays set. *)
Definition l2_clear_pending (ctx : mbedtls_mps_l2) (done : bool) : mps_ret * mbedtls_mps_l2 :=
  let o := out ctx in
  if done then
    let st := if writer_state_eqb (state o) MBEDTLS_MPS_L2_WRITER_STATE_QUEUEING
              then MBEDTLS_MPS_L2_WRITER_STATE_UNSET else state o in
    (MPS_OK, with_out ctx (set_out o false false (writer_type o) (writer_epoch o) st))
  else
    (MPS_ERR_WANT_WRITE,
     with_out ctx (set_out o true (flush o) (writer_type o) (writer_epoch o) (state o))).

(** Modelled from the spec: [mps_l2_write_start] for content type [t] and
    epoch [epoch] (spec 4.3). [epoch_ok]: the epoch has [WRITE] usage;
    [cleared]: the transport takes the pending data (steps 1 and 3);
    [record_ok]: the transport provides a buffer for a new record (step 4).
    A write that is already open is a precondition violation (spec 5). *)
Definition mps_l2_write_start (ctx : mbedtls_mps_l2) (t epoch : Z)
    (epoch_ok cleared record_ok : bool) : mps_ret * mbedtls_mps_l2 :=
  match state (out ctx) with
  | MBEDTLS_MPS_L2_WRITER_STATE_INTERNAL
  | MBEDTLS_MPS_L2_WRITER_STATE_EXTERNAL => (MPS_ERR_UNEXPECTED_OPERATION, ctx)
  | _ =>
    (* 1. pending flush / clearing *)
    let (r1, ctx1) := if clearing (out ctx) || flush (out ctx)
                      then l2_clear_pending ctx cleared else (MPS_OK, ctx) in
    if negb (mps_ret_eqb r1 MPS_OK) then (r1, ctx1)
    (* 2. validation *)
    else if negb (msg_type_in t (type_flag (conf ctx1))) then (MPS_ERR_INVALID_RECORD, ctx1)
    else if negb epoch_ok then (MPS_ERR_INVALID_ARGS, ctx1)
    else
    (* 3. queued data of another type or epoch goes first *)
    let o1 := out ctx1 in
    let (r3, ctx3) :=
      if writer_state_eqb (state o1) MBEDTLS_MPS_L2_WRITER_STATE_QUEUEING
         && negb ((writer_type o1 =? t) && (writer_epoch o1 =? epoch))
      then l2_clear_pending ctx1 cleared else (MPS_OK, ctx1) in
    if negb (mps_ret_eqb r3 MPS_OK) then (r3, ctx3)
    (* 4. prepare a new record *)
    else if negb record_ok then (MPS_ERR_WANT_WRITE, ctx3)
    (* 5. hand out the writer *)
    else
      let o3 := out ctx3 in
      (MPS_OK, with_out ctx3 (set_out o3 (clearing o3) (flush o3) t epoch
                                MBEDTLS_MPS_L2_WRITER_STATE_EXTERNAL))
  end.

(** Modelled from the spec: [mps_l2_write_done] (spec 4.3). [uncommitted]:
    [writer_reclaim] found uncommitted data. For a pausable type it is
    queued, the writer goes to [QUEUEING] and [flush] is set; otherwise the
    record is (discarded if empty, else) encrypted and dispatched and the
    writer is [UNSET]. *)
Definition mps_l2_write_done (ctx : mbedtls_mps_l2) (uncommitted : bool)
    : mps_ret * mbedtls_mps_l2 :=
  let o := out ctx in
  if negb (writer_state_eqb (state o) MBEDTLS_MPS_L2_WRITER_STATE_EXTERNAL) then
    (MPS_ERR_UNEXPECTED_OPERATION, ctx)
  else if uncommitted && msg_type_in (writer_type o) (pause_flag (conf ctx)) then
    (MPS_OK, with_out ctx (set_out o (clearing o) true (writer_type o) (writer_epoch o)
                             MBEDTLS_MPS_L2_WRITER_STATE_QUEUEING))
  else
    (MPS_OK, with_out ctx (set_out o (clearing o) (flush o) (writer_type o) (writer_epoch o)
                             MBEDTLS_MPS_L2_WRITER_STATE_UNSET)).

(** Modelled from the spec: [mps_l2_write_flush] (spec 4.3): set [flush]
    and run [l2_clear_pending]. Not allowed while a write is open. *)
Definition mps_l2_write_flush (ctx : mbedtls_mps_l2) (cleared : bool)
    : mps_ret * mbedtls_mps_l2 :=
  let o := out ctx in
  match state o with
  | MBEDTLS_MPS_L2_WRITER_STATE_INTERNAL
  | MBEDTLS_MPS_L2_WRITER_STATE_EXTERNAL => (MPS_ERR_UNEXPECTED_OPERATION, ctx)
  | _ =>
      l2_clear_pending
        (with_out ctx (set_out o (clearing o) true (writer_type o) (writer_epoch o) (state o)))
        cleared
  end.

(** One API call, with what the environment answers during it. *)
Inductive l2_call :=
| call_config_add_type (type pausing merging empty : Z)
| call_read_start (fetch : fetch_result)
| call_read_done (rc : reclaim_result)
| call_write_start (type epoch : Z) (epoch_ok cleared record_ok : bool)
| call_write_done (uncommitted : bool)
| call_write_flush (cleared : bool).

Definition mps_l2_call (ctx : mbedtls_mps_l2) (c : l2_call) : mps_ret * mbedtls_mps_l2 :=
  match c with
  | call_config_add_type t p m e =>
      let (r, cf) := mps_l2_config_add_type (conf ctx) t p m e in (r, with_conf ctx cf)
  | call_read_start f => mps_l2_read_start ctx f
  | call_read_done rc => mps_l2_read_done ctx rc
  | call_write_start t ep eo cl ro => mps_l2_write_start ctx t ep eo cl ro
  | call_write_done u => mps_l2_write_done ctx u
  | call_write_flush cl => mps_l2_write_flush ctx cl
  end.

(** The context after a sequence of calls: the states reachable between
    API calls are exactly [l2_run mps_l2_init calls]. *)
Fixpoint l2_run (ctx : mbedtls_mps_l2) (calls : list l2_call) : mbedtls_mps_l2 :=
  match calls with
  | [] => ctx
  | c :: rest => l2_run (snd (mps_l2_call ctx c)) rest
  end.

(* ------------------------------------------------------------------------- *)
(** ** State invariants of the Layer 2 context *)

(** The outgoing side: [MPS_L2_INV_IF_CLEARING_NO_WRITE],
    [MPS_L2_INV_IF_FLUSH_NO_WRITE], [MPS_L2_INV_OUT_ACTIVE_IS_VALID] and a
    queueing writer having a pausable type. *)
Record out_ok (c : mbedtls_mps_l2_config) (o : l2_out) : Prop := {
  out_ok_flags : clearing o = true \/ flush o = true ->
    state o = MBEDTLS_MPS_L2_WRITER_STATE_UNSET \/
    state o = MBEDTLS_MPS_L2_WRITER_STATE_QUEUEING;
  out_ok_valid : state o <> MBEDTLS_MPS_L2_WRITER_STATE_UNSET ->
    msg_type_in (writer_type o) (type_flag c) = true;
  out_ok_pausable : state o = MBEDTLS_MPS_L2_WRITER_STATE_QUEUEING ->
    msg_type_in (writer_type o) (pause_flag c) = true
}.

(** The incoming side: [MPS_L2_INV_IN_READERS_PERMUTATION],
    [MPS_L2_INV_IN_ACTIVE_STATE], [MPS_L2_INV_IN_PAUSED_IS_PAUSABLE] and
    [MPS_L2_INV_IN_NO_ACTIVE_PAUSED_NO_OVERLAP]. *)
Record in_ok (c : mbedtls_mps_l2_config) (i : l2_in) : Prop := {
  in_ok_perm : active i <> paused i;
  in_ok_active_state : active_state i <> MBEDTLS_MPS_L2_READER_STATE_PAUSED;
  in_ok_paused_pausable : paused_state i = MBEDTLS_MPS_L2_READER_STATE_PAUSED ->
    msg_type_in (reader_type i (paused i)) (pause_flag c) = true;
  in_ok_no_overlap : paused_state i = MBEDTLS_MPS_L2_READER_STATE_PAUSED ->
    active_state i <> MBEDTLS_MPS_L2_READER_STATE_UNSET ->
    reader_type i (active i) <> reader_type i (paused i)
}.

Definition l2_ok (ctx : mbedtls_mps_l2) : Prop :=
  out_ok (conf ctx) (out ctx) /\ in_ok (conf ctx) (in_ ctx).

(** What every configuration built by [mps_l2_config_add_type] satisfies:
    the contract's subset invariants, and no type bit at or above
    [MBEDTLS_MPS_MSG_MAX]. *)
Definition conf_ok (c : mbedtls_mps_l2_config) : Prop :=
  MPS_L2_CONF_INV c = true /\
  (forall n, MBEDTLS_MPS_MSG_MAX <= n -> Z.testbit (type_flag c) n = false).

(* END OF DEFINITIONS *)

(* ========================================================================= *)
(** * Properties *)

Example add_type_hs :
  mps_l2_config_add_type conf_zero MBEDTLS_MPS_MSG_HS 1 1 0 =
  (MPS_OK, {| type_flag := 4194304; pause_flag := 4194304;
              merge_flag := 4194304; empty_flag := 0 |}).
Proof. reflexivity. Qed.

Example add_type_31 :
  fst (mps_l2_config_add_type conf_zero 31 0 0 0) = MPS_ERR_INVALID_RECORD.
Proof. reflexivity. Qed.

(* ------------------------------------------------------------------------- *)
(** ** [mps_l2_config_add_type] *)

Section AddType.

(** The mask [(uint32_t) 1u << type] of a type below [MBEDTLS_MPS_MSG_MAX]
    is [2^type], or [0] for a (C-impossible) negative type. *)
Lemma add_type_mask_cases (t : Z) :
  t < MBEDTLS_MPS_MSG_MAX ->
  uint32 (Z.shiftl 1 t) = 0 \/ (0 <= t /\ uint32 (Z.shiftl 1 t) = 2 ^ t).
Proof.
  unfold MBEDTLS_MPS_MSG_MAX, uint32; intros Ht.
  rewrite Z.shiftl_1_l.
  destruct (Z.ltb_spec t 0) as [Hn | Hn].
  - left. rewrite Z.pow_neg_r by lia. reflexivity.
  - right. split; [lia |]. apply Z.mod_small. split.
    + apply Z.pow_nonneg; lia.
    + apply Z.pow_lt_mono_r; lia.
Qed.

Lemma land_pow2_eqb_0 (x t : Z) :
  0 <= t -> (Z.land x (2 ^ t) =? 0) = negb (Z.testbit x t).
Proof.
  intros Ht. destruct (Z.testbit x t) eqn:Hb; simpl.
  - apply Z.eqb_neq. intros H0.
    assert (Z.testbit (Z.land x (2 ^ t)) t = false) as Hf by (rewrite H0; apply Z.bits_0).
    rewrite Z.land_spec, Z.pow2_bits_true, Hb in Hf by lia. discriminate.
  - apply Z.eqb_eq. apply Z.bits_inj'. intros n Hn.
    rewrite Z.land_spec, Z.bits_0, Z.pow2_bits_eqb by lia.
    destruct (Z.eqb_spec t n); [subst; rewrite Hb |]; apply andb_false_r || reflexivity.
Qed.

(** [(a & b) == a] is the subset relation on bit sets. *)
Lemma land_subset_iff (a b : Z) :
  Z.land a b = a <-> (forall n, Z.testbit a n = true -> Z.testbit b n = true).
Proof.
  split.
  - intros H n Ha. rewrite <- H, Z.land_spec in Ha. apply andb_prop in Ha. tauto.
  - intros H. apply Z.bits_inj'. intros n _. rewrite Z.land_spec.
    destruct (Z.testbit a n) eqn:Ha; [rewrite (H n Ha) |]; reflexivity.
Qed.

Lemma land_subset_lor (a b c d : Z) :
  Z.land a b = a -> Z.land c d = c ->
  Z.land (Z.lor a c) (Z.lor b d) = Z.lor a c.
Proof.
  rewrite !land_subset_iff. intros Hab Hcd n.
  rewrite !Z.lor_spec. intros Hn. apply orb_prop in Hn as [Hn | Hn].
  - rewrite (Hab n Hn). reflexivity.
  - rewrite (Hcd n Hn). apply orb_true_r.
Qed.

Lemma flag_bit_subset (x mask : Z) : Z.land (flag_bit x mask) mask = flag_bit x mask.
Proof. unfold flag_bit. destruct (x =? 1); [apply Z.land_diag | apply Z.land_0_l]. Qed.

Lemma conf_ok_zero : conf_ok conf_zero.
Proof. split; [reflexivity | intros n _; apply Z.bits_0]. Qed.

Lemma add_type_conf_ok (c : mbedtls_mps_l2_config) (t p m e : Z) :
  conf_ok c -> conf_ok (snd (mps_l2_config_add_type c t p m e)).
Proof.
  intros [Hinv Hhi]. unfold mps_l2_config_add_type.
  destruct (Z.geb_spec t MBEDTLS_MPS_MSG_MAX) as [Ht | Ht]; [split; assumption |].
  cbv zeta. remember (uint32 (Z.shiftl 1 t)) as mask eqn:Hmask.
  destruct (negb _); [split; assumption |].
  unfold MPS_L2_CONF_INV, MPS_L2_CONF_INV_PAUSE_FLAG, MPS_L2_CONF_INV_MERGE_FLAG,
    MPS_L2_CONF_INV_EMPTY_FLAG in *; cbn [snd type_flag pause_flag merge_flag empty_flag].
  apply andb_prop in Hinv as [Hinv He]; apply andb_prop in Hinv as [Hp Hm].
  apply Z.eqb_eq in Hp, Hm, He. split.
  - unfold MPS_L2_CONF_INV, MPS_L2_CONF_INV_PAUSE_FLAG, MPS_L2_CONF_INV_MERGE_FLAG,
      MPS_L2_CONF_INV_EMPTY_FLAG; cbn [type_flag pause_flag merge_flag empty_flag].
    rewrite (land_subset_lor _ _ _ _ Hp (flag_bit_subset p mask)),
      (land_subset_lor _ _ _ _ Hm (flag_bit_subset m mask)),
      (land_subset_lor _ _ _ _ He (flag_bit_subset e mask)), !Z.eqb_refl.
    reflexivity.
  - intros n Hn. cbn [type_flag]. rewrite Z.lor_spec, (Hhi n Hn). simpl.
    subst mask. destruct (add_type_mask_cases t Ht) as [-> | [Ht0 ->]].
    + apply Z.bits_0.
    + rewrite Z.pow2_bits_eqb by lia. apply Z.eqb_neq.
      unfold MBEDTLS_MPS_MSG_MAX in *; lia.
Qed.

Lemma add_types_conf_ok (calls : list (Z * Z * Z * Z)) (c : mbedtls_mps_l2_config) :
  conf_ok c -> conf_ok (add_types c calls).
Proof.
  revert c; induction calls as [| [[[t p] m] e] rest IH]; intros c Hc; simpl.
  - exact Hc.
  - apply IH, add_type_conf_ok, Hc.
Qed.

End AddType.

(** C1 (evaluation at the failing input): content type 31, which the header
    documents as valid ("record types in the range of 0 .. 31"), is refused
    with [MPS_ERR_INVALID_RECORD] whatever the configuration, because the
    range check is [type >= MBEDTLS_MPS_MSG_MAX] with [MBEDTLS_MPS_MSG_MAX = 31]. *)
Theorem add_type_rejects_type_31 (c : mbedtls_mps_l2_config) (p m e : Z) :
  mps_l2_config_add_type c 31 p m e = (MPS_ERR_INVALID_RECORD, c).
Proof. reflexivity. Qed.

(** C3: along any sequence of [mps_l2_config_add_type] calls from the
    all-zero configuration, [pause_flag], [merge_flag] and [empty_flag]
    stay subsets of [type_flag] (the three [MPS_L2_CONF_INV_*] macros hold). *)
Theorem add_types_flags_subset_type_flag (calls : list (Z * Z * Z * Z)) :
  MPS_L2_CONF_INV_PAUSE_FLAG (add_types conf_zero calls) = true /\
  MPS_L2_CONF_INV_MERGE_FLAG (add_types conf_zero calls) = true /\
  MPS_L2_CONF_INV_EMPTY_FLAG (add_types conf_zero calls) = true.
Proof.
  destruct (add_types_conf_ok calls conf_zero conf_ok_zero) as [Hinv _].
  unfold MPS_L2_CONF_INV in Hinv.
  apply andb_prop in Hinv as [Hinv He]; apply andb_prop in Hinv as [Hp Hm].
  auto.
Qed.

(** C6: on a configuration built by [mps_l2_config_add_type] calls, adding a
    content type whose bit is already set in [type_flag] fails with
    [MPS_ERR_INVALID_ARGS]. *)
Theorem add_type_twice_invalid_args (calls : list (Z * Z * Z * Z)) (t p m e : Z) :
  Z.testbit (type_flag (add_types conf_zero calls)) t = true ->
  fst (mps_l2_config_add_type (add_types conf_zero calls) t p m e) = MPS_ERR_INVALID_ARGS.
Proof.
  intros Hbit.
  destruct (add_types_conf_ok calls conf_zero conf_ok_zero) as [_ Hhi].
  set (c := add_types conf_zero calls) in *.
  assert (Ht0 : 0 <= t).
  { destruct (Z.ltb_spec t 0); [rewrite Z.testbit_neg_r in Hbit by lia; discriminate | lia]. }
  assert (Ht : t < MBEDTLS_MPS_MSG_MAX).
  { destruct (Z.ltb_spec t MBEDTLS_MPS_MSG_MAX); [assumption |].
    rewrite Hhi in Hbit by lia. discriminate. }
  unfold mps_l2_config_add_type.
  destruct (Z.geb_spec t MBEDTLS_MPS_MSG_MAX) as [Hge | _]; [lia |].
  cbv zeta. destruct (add_type_mask_cases t Ht) as [Hz | [_ ->]].
  - unfold uint32 in Hz. rewrite Z.shiftl_1_l, Z.mod_small in Hz.
    + apply Z.pow_nonzero in Hz; lia.
    + split; [apply Z.pow_nonneg; lia | apply Z.pow_lt_mono_r; unfold MBEDTLS_MPS_MSG_MAX in *; lia].
  - rewrite land_pow2_eqb_0, Hbit by assumption. reflexivity.
Qed.

Lemma add_type_twice_invalid_args_witness :
  Z.testbit (type_flag (add_types conf_zero [(MBEDTLS_MPS_MSG_HS, 1, 1, 0)]))
    MBEDTLS_MPS_MSG_HS = true /\
  fst (mps_l2_config_add_type (add_types conf_zero [(MBEDTLS_MPS_MSG_HS, 1, 1, 0)])
         MBEDTLS_MPS_MSG_HS 0 0 0) = MPS_ERR_INVALID_ARGS.
Proof.
  split; [reflexivity |].
  apply (add_type_twice_invalid_args [(MBEDTLS_MPS_MSG_HS, 1, 1, 0)]). reflexivity.
Defined.

(** C9: when [mps_l2_config_add_type] returns an error, the configuration
    (all four bitmasks) is left as it was. *)
Theorem add_type_error_leaves_conf (c c' : mbedtls_mps_l2_config) (t p m e : Z) (r : mps_ret) :
  mps_l2_config_add_type c t p m e = (r, c') -> r <> MPS_OK ->
  type_flag c' = type_flag c /\ pause_flag c' = pause_flag c /\
  merge_flag c' = merge_flag c /\ empty_flag c' = empty_flag c.
Proof.
  unfold mps_l2_config_add_type. intros Hcall Hr.
  destruct (t >=? MBEDTLS_MPS_MSG_MAX).
  - injection Hcall as <- <-. auto.
  - destruct (negb _); injection Hcall as <- <-; [auto | congruence].
Qed.

Lemma add_type_error_leaves_conf_witness :
  let c := add_types conf_zero [(MBEDTLS_MPS_MSG_HS, 1, 1, 0)] in
  mps_l2_config_add_type c MBEDTLS_MPS_MSG_HS 1 0 1 = (MPS_ERR_INVALID_ARGS, c) /\
  MPS_ERR_INVALID_ARGS <> MPS_OK /\
  type_flag c = type_flag c /\ pause_flag c = pause_flag c /\
  merge_flag c = merge_flag c /\ empty_flag c = empty_flag c.
Proof.
  intros c. split; [reflexivity |]. split; [discriminate |].
  apply (add_type_error_leaves_conf c c MBEDTLS_MPS_MSG_HS 1 0 1 MPS_ERR_INVALID_ARGS);
    [reflexivity | discriminate].
Defined.

(** C10: adding a fresh type [t] in the range the code accepts
    ([0 <= t < MBEDTLS_MPS_MSG_MAX]) to a configuration satisfying the
    contract's subset invariants returns [0], registers [t] in [type_flag],
    and sets the bit of [t] in [pause_flag] (resp. [merge_flag],
    [empty_flag]) exactly when [pausing] (resp. [merging], [empty]) equals 1. *)
Theorem add_type_fresh_flags (c : mbedtls_mps_l2_config) (t p m e : Z) :
  MPS_L2_CONF_INV c = true ->
  0 <= t < MBEDTLS_MPS_MSG_MAX ->
  Z.testbit (type_flag c) t = false ->
  let (r, c') := mps_l2_config_add_type c t p m e in
  r = MPS_OK /\ Z.testbit (type_flag c') t = true /\
  Z.testbit (pause_flag c') t = (p =? 1) /\
  Z.testbit (merge_flag c') t = (m =? 1) /\
  Z.testbit (empty_flag c') t = (e =? 1).
Proof.
  intros Hinv Ht Hfresh.
  unfold MPS_L2_CONF_INV, MPS_L2_CONF_INV_PAUSE_FLAG, MPS_L2_CONF_INV_MERGE_FLAG,
    MPS_L2_CONF_INV_EMPTY_FLAG in Hinv.
  apply andb_prop in Hinv as [Hinv He]; apply andb_prop in Hinv as [Hp Hm].
  apply Z.eqb_eq in Hp, Hm, He.
  (* a flag that is a subset of [type_flag] has no bit at the fresh type *)
  assert (Hoff : forall f, Z.land f (type_flag c) = f -> Z.testbit f t = false).
  { intros f Hf. rewrite <- Hf, Z.land_spec, Hfresh. apply andb_false_r. }
  unfold mps_l2_config_add_type.
  destruct (Z.geb_spec t MBEDTLS_MPS_MSG_MAX) as [Hge | _]; [lia |].
  cbv zeta. destruct (add_type_mask_cases t (proj2 Ht)) as [Hz | [_ ->]].
  - unfold uint32 in Hz. rewrite Z.shiftl_1_l, Z.mod_small in Hz.
    + apply Z.pow_nonzero in Hz; lia.
    + split; [apply Z.pow_nonneg; lia | apply Z.pow_lt_mono_r; unfold MBEDTLS_MPS_MSG_MAX in *; lia].
  - rewrite land_pow2_eqb_0, Hfresh by lia. cbn [negb type_flag pause_flag merge_flag empty_flag].
    unfold flag_bit. rewrite !Z.lor_spec, Hfresh, (Hoff _ Hp), (Hoff _ Hm), (Hoff _ He).
    rewrite Z.pow2_bits_true by lia.
    repeat split; [destruct (p =? 1) | destruct (m =? 1) | destruct (e =? 1)];
      simpl; rewrite ?Z.pow2_bits_true, ?Z.bits_0 by lia; reflexivity.
Qed.

Lemma add_type_fresh_flags_witness :
  MPS_L2_CONF_INV conf_zero = true /\
  0 <= MBEDTLS_MPS_MSG_HS < MBEDTLS_MPS_MSG_MAX /\
  Z.testbit (type_flag conf_zero) MBEDTLS_MPS_MSG_HS = false /\
  (let (r, c') := mps_l2_config_add_type conf_zero MBEDTLS_MPS_MSG_HS 2 1 0 in
   r = MPS_OK /\ Z.testbit (type_flag c') MBEDTLS_MPS_MSG_HS = true /\
   Z.testbit (pause_flag c') MBEDTLS_MPS_MSG_HS = (2 =? 1) /\
   Z.testbit (merge_flag c') MBEDTLS_MPS_MSG_HS = (1 =? 1) /\
   Z.testbit (empty_flag c') MBEDTLS_MPS_MSG_HS = (0 =? 1)).
Proof.
  split; [reflexivity |]. split; [unfold MBEDTLS_MPS_MSG_HS, MBEDTLS_MPS_MSG_MAX; lia |].
  split; [reflexivity |].
  apply add_type_fresh_flags; [reflexivity | unfold MBEDTLS_MPS_MSG_HS, MBEDTLS_MPS_MSG_MAX; lia | reflexivity].
Defined.

Example write_read_uint48 :
  MPS_WRITE_UINT48_BE 0x010203040506 [9;9;9;9;9;9;9;9] 1 = [9;1;2;3;4;5;6;9] /\
  MPS_READ_UINT48_BE [9;1;2;3;4;5;6;9] 1 = 0x010203040506.
Proof. split; reflexivity. Qed.

(* ------------------------------------------------------------------------- *)
(** ** Big-endian parsing and writing macros *)

Section Serialization.

Lemma buf_store_length (buf bs : list Z) (off : nat) :
  (off + length bs <= length buf)%nat -> length (buf_store buf off bs) = length buf.
Proof.
  intros H. unfold buf_store.
  rewrite !length_app, length_firstn, length_map, length_skipn. lia.
Qed.

Lemma buf_store_window (buf bs : list Z) (off n : nat) :
  (off <= length buf)%nat -> length bs = n ->
  firstn n (skipn off (buf_store buf off bs)) = map uint8 bs.
Proof.
  intros H <-. unfold buf_store.
  rewrite skipn_app, skipn_all2 by (rewrite length_firstn; lia).
  rewrite length_firstn. replace (off - Init.Nat.min off (length buf))%nat with 0%nat by lia.
  simpl. rewrite firstn_app, length_map, Nat.sub_diag, firstn_O, app_nil_r.
  rewrite <- (length_map uint8 bs) at 1. apply firstn_all.
Qed.

Lemma buf_store_nth (buf bs : list Z) (off i : nat) :
  (off <= length buf)%nat -> (i < length bs)%nat ->
  nth (off + i) (buf_store buf off bs) 0 = uint8 (nth i bs 0).
Proof.
  intros H Hi. unfold buf_store.
  rewrite app_nth2 by (rewrite length_firstn; lia).
  rewrite length_firstn. replace (off + i - Init.Nat.min off (length buf))%nat with i by lia.
  rewrite app_nth1 by (rewrite length_map; lia).
  change 0 with (uint8 0) at 1. apply map_nth.
Qed.

(** A stored byte [(v >> k) & 0xFF] is the base-256 digit of [v] at [k]. *)
Lemma byte_digit (v k : Z) :
  0 <= k -> uint8 (Z.land (Z.shiftr v k) 255) = v / 2 ^ k mod 256.
Proof.
  intros Hk. unfold uint8. change 255 with (Z.ones 8).
  rewrite Z.land_ones, Z.shiftr_div_pow2 by lia.
  change (2 ^ 8) with 256. apply Z.mod_mod. lia.
Qed.

Lemma digit_step (v k k' : Z) :
  k' = k + 8 -> 0 <= k -> v / 2 ^ k' * 256 + v / 2 ^ k mod 256 = v / 2 ^ k.
Proof.
  intros -> Hk. rewrite Z.pow_add_r, <- Z.div_div by lia.
  pose proof (Z.div_mod (v / 2 ^ k) 256). change (2 ^ 8) with 256. lia.
Qed.

Lemma digit_top (v k : Z) :
  0 <= k -> 0 <= v < 2 ^ (k + 8) -> v / 2 ^ k mod 256 = v / 2 ^ k.
Proof.
  intros Hk Hv. apply Z.mod_small.
  assert (0 < 2 ^ k) by (apply Z.pow_pos_nonneg; lia).
  split; [apply Z.div_pos; lia |].
  apply Z.div_lt_upper_bound; [lia |].
  rewrite Z.pow_add_r in Hv by lia. change (2 ^ 8) with 256 in Hv. lia.
Qed.

Lemma digit_is_byte (v k : Z) : is_byte (v / 2 ^ k mod 256).
Proof. apply Z.mod_pos_bound. lia. Qed.

End Serialization.

(** Fold the digits of [v], most significant first, back into [v]. *)
Ltac horner v :=
  cbn [be_value fold_left];
  match goal with
  | |- context [v / 2 ^ ?k mod 256] =>
      rewrite (digit_top v k) by (lia || (cbn; lia))
  end;
  rewrite Z.mul_0_l, Z.add_0_l;
  repeat match goal with
  | |- context [v / 2 ^ ?a * 256 + v / 2 ^ ?b mod 256] =>
      rewrite (digit_step v b a) by lia
  end;
  rewrite ?Z.pow_0_r, ?Z.div_1_r; try reflexivity.

Lemma uint48_write_read (v : Z) (buf : list Z) (off : nat) :
  0 <= v < 2 ^ 48 -> (off + 6 <= length buf)%nat ->
  let buf' := MPS_WRITE_UINT48_BE v buf off in
  MPS_READ_UINT48_BE buf' off = v /\ length buf' = length buf /\
  firstn 6 (skipn off buf') =
    [v / 2 ^ 40 mod 256; v / 2 ^ 32 mod 256; v / 2 ^ 24 mod 256;
     v / 2 ^ 16 mod 256; v / 2 ^ 8 mod 256; v / 2 ^ 0 mod 256].
Proof.
  intros Hv Hlen buf'. unfold buf', MPS_WRITE_UINT48_BE, MPS_READ_UINT48_BE, buf_at.
  assert (Hh : be_value [v / 2 ^ 40 mod 256; v / 2 ^ 32 mod 256; v / 2 ^ 24 mod 256;
     v / 2 ^ 16 mod 256; v / 2 ^ 8 mod 256; v / 2 ^ 0 mod 256] = v) by horner v.
  cbn [be_value fold_left] in Hh.
  split; [| split].
  - rewrite !buf_store_nth by (cbn; lia). cbn [nth]. rewrite !byte_digit by lia.
    rewrite !Z.shiftl_mul_pow2 by lia. unfold uint64. rewrite Z.mod_small; lia.
  - apply buf_store_length. cbn; lia.
  - rewrite (buf_store_window _ _ _ 6) by (cbn; lia). cbn [map].
    rewrite !byte_digit by lia. reflexivity.
Qed.

Lemma uint32_write_read (v : Z) (buf : list Z) (off : nat) :
  0 <= v < 2 ^ 32 -> (off + 4 <= length buf)%nat ->
  let buf' := MPS_WRITE_UINT32_BE v buf off in
  MPS_READ_UINT32_BE buf' off = v /\ length buf' = length buf /\
  firstn 4 (skipn off buf') =
    [v / 2 ^ 24 mod 256; v / 2 ^ 16 mod 256; v / 2 ^ 8 mod 256; v / 2 ^ 0 mod 256].
Proof.
  intros Hv Hlen buf'. unfold buf', MPS_WRITE_UINT32_BE, MPS_READ_UINT32_BE, buf_at.
  assert (Hh : be_value [v / 2 ^ 24 mod 256; v / 2 ^ 16 mod 256;
     v / 2 ^ 8 mod 256; v / 2 ^ 0 mod 256] = v) by horner v.
  cbn [be_value fold_left] in Hh.
  split; [| split].
  - rewrite !buf_store_nth by (cbn; lia). cbn [nth]. rewrite !byte_digit by lia.
    rewrite !Z.shiftl_mul_pow2 by lia. unfold uint32. rewrite Z.mod_small; lia.
  - apply buf_store_length. cbn; lia.
  - rewrite (buf_store_window _ _ _ 4) by (cbn; lia). cbn [map].
    rewrite !byte_digit by lia. reflexivity.
Qed.

Lemma uint24_write_read (v : Z) (buf : list Z) (off : nat) :
  0 <= v < 2 ^ 24 -> (off + 3 <= length buf)%nat ->
  let buf' := MPS_WRITE_UINT24_BE v buf off in
  MPS_READ_UINT24_BE buf' off = v /\ length buf' = length buf /\
  firstn 3 (skipn off buf') =
    [v / 2 ^ 16 mod 256; v / 2 ^ 8 mod 256; v / 2 ^ 0 mod 256].
Proof.
  intros Hv Hlen buf'. unfold buf', MPS_WRITE_UINT24_BE, MPS_READ_UINT24_BE, buf_at.
  assert (Hh : be_value [v / 2 ^ 16 mod 256; v / 2 ^ 8 mod 256;
     v / 2 ^ 0 mod 256] = v) by horner v.
  cbn [be_value fold_left] in Hh.
  split; [| split].
  - rewrite !buf_store_nth by (cbn; lia). cbn [nth]. rewrite !byte_digit by lia.
    rewrite !Z.shiftl_mul_pow2 by lia. unfold uint32. rewrite Z.mod_small; lia.
  - apply buf_store_length. cbn; lia.
  - rewrite (buf_store_window _ _ _ 3) by (cbn; lia). cbn [map].
    rewrite !byte_digit by lia. reflexivity.
Qed.

Lemma uint16_write_read (v : Z) (buf : list Z) (off : nat) :
  0 <= v < 2 ^ 16 -> (off + 2 <= length buf)%nat ->
  let buf' := MPS_WRITE_UINT16_BE v buf off in
  MPS_READ_UINT16_BE buf' off = v /\ length buf' = length buf /\
  firstn 2 (skipn off buf') = [v / 2 ^ 8 mod 256; v / 2 ^ 0 mod 256].
Proof.
  intros Hv Hlen buf'. unfold buf', MPS_WRITE_UINT16_BE, MPS_READ_UINT16_BE, buf_at.
  assert (Hh : be_value [v / 2 ^ 8 mod 256; v / 2 ^ 0 mod 256] = v) by horner v.
  cbn [be_value fold_left] in Hh.
  split; [| split].
  - rewrite !buf_store_nth by (cbn; lia). cbn [nth]. rewrite !byte_digit by lia.
    rewrite !Z.shiftl_mul_pow2 by lia. unfold uint16. rewrite Z.mod_small; lia.
  - apply buf_store_length. cbn; lia.
  - rewrite (buf_store_window _ _ _ 2) by (cbn; lia). cbn [map].
    rewrite !byte_digit by lia. reflexivity.
Qed.

Lemma uint8_write_read (v : Z) (buf : list Z) (off : nat) :
  0 <= v < 2 ^ 8 -> (off + 1 <= length buf)%nat ->
  let buf' := MPS_WRITE_UINT8_BE v buf off in
  MPS_READ_UINT8_BE buf' off = v /\ length buf' = length buf /\
  firstn 1 (skipn off buf') = [v / 2 ^ 0 mod 256].
Proof.
  intros Hv Hlen buf'. unfold buf', MPS_WRITE_UINT8_BE, MPS_READ_UINT8_BE, buf_at.
  assert (Hu : uint8 v = v) by (unfold uint8; apply Z.mod_small; lia).
  assert (Hd : v / 2 ^ 0 mod 256 = v) by (rewrite Z.pow_0_r, Z.div_1_r; apply Z.mod_small; lia).
  split; [| split].
  - rewrite buf_store_nth by (cbn; lia). exact Hu.
  - apply buf_store_length. cbn; lia.
  - rewrite (buf_store_window _ _ _ 1) by (cbn; lia). cbn [map]. rewrite Hu, Hd. reflexivity.
Qed.

(** C7: for [w] in {8, 16, 24, 32, 48} and [0 <= v < 2^w], writing [v] with
    [MPS_WRITE_UINTw_BE] at offset [off] of a buffer with room for it and
    reading it back with [MPS_READ_UINTw_BE] yields [v]; the buffer keeps
    its length, and the [w/8] bytes at [off] are bytes that hold [v]
    big-endian (read most significant byte first, they give back [v]). *)
Theorem mps_uint_be_write_read (w v : Z) (buf : list Z) (off : nat) :
  In w [8; 16; 24; 32; 48] -> 0 <= v < 2 ^ w ->
  (off + Z.to_nat (w / 8) <= length buf)%nat ->
  let buf' := MPS_WRITE_UINT_BE w v buf off in
  MPS_READ_UINT_BE w buf' off = v /\ length buf' = length buf /\
  Forall is_byte (firstn (Z.to_nat (w / 8)) (skipn off buf')) /\
  be_value (firstn (Z.to_nat (w / 8)) (skipn off buf')) = v.
Proof.
  intros Hw Hv Hlen buf'. unfold buf', MPS_WRITE_UINT_BE, MPS_READ_UINT_BE.
  destruct Hw as [<- | [<- | [<- | [<- | [<- | []]]]]]; cbn [Z.eqb Pos.eqb];
    [change (Z.to_nat (8 / 8)) with 1%nat in * | change (Z.to_nat (16 / 8)) with 2%nat in *
    | change (Z.to_nat (24 / 8)) with 3%nat in * | change (Z.to_nat (32 / 8)) with 4%nat in *
    | change (Z.to_nat (48 / 8)) with 6%nat in *].
  - destruct (uint8_write_read v buf off Hv Hlen) as (Hr & Hl & ->).
    split; [exact Hr | split; [exact Hl | split]].
    + repeat constructor; apply digit_is_byte.
    + horner v.
  - destruct (uint16_write_read v buf off Hv Hlen) as (Hr & Hl & ->).
    split; [exact Hr | split; [exact Hl | split]].
    + repeat constructor; apply digit_is_byte.
    + horner v.
  - destruct (uint24_write_read v buf off Hv Hlen) as (Hr & Hl & ->).
    split; [exact Hr | split; [exact Hl | split]].
    + repeat constructor; apply digit_is_byte.
    + horner v.
  - destruct (uint32_write_read v buf off Hv Hlen) as (Hr & Hl & ->).
    split; [exact Hr | split; [exact Hl | split]].
    + repeat constructor; apply digit_is_byte.
    + horner v.
  - destruct (uint48_write_read v buf off Hv Hlen) as (Hr & Hl & ->).
    split; [exact Hr | split; [exact Hl | split]].
    + repeat constructor; apply digit_is_byte.
    + horner v.
Qed.

Lemma mps_uint_be_write_read_witness :
  In 48 [8; 16; 24; 32; 48] /\ 0 <= 0x0102030405 < 2 ^ 48 /\
  (1 + Z.to_nat (48 / 8) <= length [0; 0; 0; 0; 0; 0; 0; 0])%nat /\
  (let buf' := MPS_WRITE_UINT_BE 48 0x0102030405 [0; 0; 0; 0; 0; 0; 0; 0] 1 in
   MPS_READ_UINT_BE 48 buf' 1 = 0x0102030405 /\ length buf' = 8%nat /\
   Forall is_byte (firstn (Z.to_nat (48 / 8)) (skipn 1 buf')) /\
   be_value (firstn (Z.to_nat (48 / 8)) (skipn 1 buf')) = 0x0102030405).
Proof.
  split; [cbn; tauto |]. split; [lia |]. split; [cbn; lia |].
  apply mps_uint_be_write_read; [cbn; tauto | lia | cbn; lia].
Defined.

(* ------------------------------------------------------------------------- *)
(** ** Invariants of the Layer 2 state machine *)

Section L2Invariants.

Lemma msg_type_in_lor (t f g : Z) :
  msg_type_in t f = true -> msg_type_in t (Z.lor f g) = true.
Proof.
  unfold msg_type_in. rewrite !negb_true_iff, !Z.eqb_neq. intros H Hz. apply H.
  apply Z.bits_inj'. intros n _. rewrite Z.land_spec, Z.bits_0.
  assert (Hn : Z.testbit (Z.land (uint32 (Z.shiftl 1 t)) (Z.lor f g)) n = false)
    by (rewrite Hz; apply Z.bits_0).
  rewrite Z.land_spec, Z.lor_spec in Hn.
  destruct (Z.testbit (uint32 (Z.shiftl 1 t)) n), (Z.testbit f n); simpl in *; congruence.
Qed.

Lemma add_type_type_flag_grows (c : mbedtls_mps_l2_config) (t p m e x : Z) :
  msg_type_in x (type_flag c) = true ->
  msg_type_in x (type_flag (snd (mps_l2_config_add_type c t p m e))) = true.
Proof.
  unfold mps_l2_config_add_type. intros H.
  destruct (t >=? _); [exact H |]. cbv zeta. destruct (negb _); [exact H |].
  apply msg_type_in_lor, H.
Qed.

Lemma add_type_pause_flag_grows (c : mbedtls_mps_l2_config) (t p m e x : Z) :
  msg_type_in x (pause_flag c) = true ->
  msg_type_in x (pause_flag (snd (mps_l2_config_add_type c t p m e))) = true.
Proof.
  unfold mps_l2_config_add_type. intros H.
  destruct (t >=? _); [exact H |]. cbv zeta. destruct (negb _); [exact H |].
  apply msg_type_in_lor, H.
Qed.

(** Split the tests of a modelled call into cases. *)
Ltac case_tests :=
  repeat match goal with
  | |- context [if ?b then _ else _] =>
      lazymatch b with
      | context [if _ then _ else _] => fail
      | _ => let H := fresh "Hb" in destruct b eqn:H
      end
  end.

Ltac bool_facts :=
  repeat match goal with
  | H : (_ && _)%bool = true |- _ => apply andb_prop in H as [? ?]
  | H : (_ && _)%bool = false |- _ => apply andb_false_iff in H as [? | ?]
  | H : (_ || _)%bool = true |- _ => apply orb_prop in H as [? | ?]
  | H : negb _ = true |- _ => apply negb_true_iff in H
  | H : negb _ = false |- _ => apply negb_false_iff in H
  | H : (_ =? _) = true |- _ => apply Z.eqb_eq in H
  | H : (_ =? _) = false |- _ => apply Z.eqb_neq in H
  end.

Lemma read_start_in_ok (ctx : mbedtls_mps_l2) (f : fetch_result) :
  in_ok (conf ctx) (in_ ctx) ->
  in_ok (conf (snd (mps_l2_read_start ctx f))) (in_ (snd (mps_l2_read_start ctx f))).
Proof.
  destruct ctx as [c o [r0 r1 a p ast pst]].
  intros [Hperm Hast Hpp Hov]; cbn in Hperm, Hast, Hpp, Hov.
  unfold mps_l2_read_start, l2_in_route.
  destruct a, p, ast, pst, f; cbn [in_ active paused active_state paused_state
    reader_type readers_0_type readers_1_type reader_state_eqb andb fst snd] in *;
    try congruence; case_tests; bool_facts;
    try specialize (Hpp eq_refl); try specialize (Hov eq_refl);
    try specialize (Hov ltac:(discriminate));
    split; cbn; intros; try congruence; auto.
Qed.

Lemma read_done_in_ok (ctx : mbedtls_mps_l2) (rc : reclaim_result) :
  in_ok (conf ctx) (in_ ctx) ->
  in_ok (conf (snd (mps_l2_read_done ctx rc))) (in_ (snd (mps_l2_read_done ctx rc))).
Proof.
  destruct ctx as [c o [r0 r1 a p ast pst]].
  intros [Hperm Hast Hpp Hov]; cbn in Hperm, Hast, Hpp, Hov.
  unfold mps_l2_read_done.
  destruct a, p, ast, pst, rc; cbn [in_ conf active paused active_state paused_state
    reader_type readers_0_type readers_1_type reader_state_eqb andb negb fst snd] in *;
    try congruence; case_tests; bool_facts;
    try specialize (Hpp eq_refl); try specialize (Hov eq_refl);
    try specialize (Hov ltac:(discriminate));
    split; cbn; intros; try congruence; auto.
Qed.

Lemma read_start_conf_out (ctx : mbedtls_mps_l2) (f : fetch_result) :
  conf (snd (mps_l2_read_start ctx f)) = conf ctx /\
  out (snd (mps_l2_read_start ctx f)) = out ctx.
Proof.
  unfold mps_l2_read_start, l2_in_route.
  destruct (active_state (in_ ctx)), f; case_tests; split; reflexivity.
Qed.

Lemma read_done_conf_out (ctx : mbedtls_mps_l2) (rc : reclaim_result) :
  conf (snd (mps_l2_read_done ctx rc)) = conf ctx /\
  out (snd (mps_l2_read_done ctx rc)) = out ctx.
Proof.
  unfold mps_l2_read_done. destruct rc; case_tests; split; reflexivity.
Qed.

Lemma write_start_out_ok (ctx : mbedtls_mps_l2) (t ep : Z) (eo cl ro : bool) :
  out_ok (conf ctx) (out ctx) ->
  out_ok (conf (snd (mps_l2_write_start ctx t ep eo cl ro)))
         (out (snd (mps_l2_write_start ctx t ep eo cl ro))).
Proof.
  destruct ctx as [c [cl0 fl0 wt we st] i].
  intros [Hfl Hva Hpa]; cbn in Hfl, Hva, Hpa.
  unfold mps_l2_write_start, l2_clear_pending.
  destruct st, cl0, fl0, cl; cbn [out conf state clearing flush writer_type writer_epoch
    writer_state_eqb orb andb negb fst snd mps_ret_eqb with_out set_out] in *;
    case_tests; cbn [mps_ret_eqb negb] in *; try discriminate; bool_facts;
    try (split; cbn; intros; first [congruence | auto | intuition congruence]; fail).
  all: split; cbn; intros; intuition (try congruence; auto).
Qed.

Lemma write_start_conf_in (ctx : mbedtls_mps_l2) (t ep : Z) (eo cl ro : bool) :
  conf (snd (mps_l2_write_start ctx t ep eo cl ro)) = conf ctx /\
  in_ (snd (mps_l2_write_start ctx t ep eo cl ro)) = in_ ctx.
Proof.
  unfold mps_l2_write_start, l2_clear_pending.
  destruct (state (out ctx)); case_tests; split; reflexivity.
Qed.

Lemma write_done_out_ok (ctx : mbedtls_mps_l2) (u : bool) :
  out_ok (conf ctx) (out ctx) ->
  out_ok (conf (snd (mps_l2_write_done ctx u))) (out (snd (mps_l2_write_done ctx u))).
Proof.
  destruct ctx as [c [cl0 fl0 wt we st] i].
  intros [Hfl Hva Hpa]; cbn in Hfl, Hva, Hpa.
  unfold mps_l2_write_done.
  destruct st; cbn [out conf state clearing flush writer_type writer_epoch
    writer_state_eqb negb fst snd with_out set_out] in *;
    case_tests; bool_facts;
    split; cbn; intros; try congruence; auto.
  apply Hva; discriminate.
Qed.

Lemma write_done_conf_in (ctx : mbedtls_mps_l2) (u : bool) :
  conf (snd (mps_l2_write_done ctx u)) = conf ctx /\
  in_ (snd (mps_l2_write_done ctx u)) = in_ ctx.
Proof.
  unfold mps_l2_write_done. case_tests; split; reflexivity.
Qed.

Lemma write_flush_out_ok (ctx : mbedtls_mps_l2) (cl : bool) :
  out_ok (conf ctx) (out ctx) ->
  out_ok (conf (snd (mps_l2_write_flush ctx cl))) (out (snd (mps_l2_write_flush ctx cl))).
Proof.
  destruct ctx as [c [cl0 fl0 wt we st] i].
  intros [Hfl Hva Hpa]; cbn in Hfl, Hva, Hpa.
  unfold mps_l2_write_flush, l2_clear_pending.
  destruct st, cl; cbn [out conf state clearing flush writer_type writer_epoch
    writer_state_eqb negb fst snd with_out set_out] in *;
    split; cbn; intros; intuition (try congruence; auto).
Qed.

Lemma write_flush_conf_in (ctx : mbedtls_mps_l2) (cl : bool) :
  conf (snd (mps_l2_write_flush ctx cl)) = conf ctx /\
  in_ (snd (mps_l2_write_flush ctx cl)) = in_ ctx.
Proof.
  unfold mps_l2_write_flush, l2_clear_pending.
  destruct (state (out ctx)), cl; split; reflexivity.
Qed.

Lemma add_type_out_ok (c : mbedtls_mps_l2_config) (o : l2_out) (t p m e : Z) :
  out_ok c o -> out_ok (snd (mps_l2_config_add_type c t p m e)) o.
Proof.
  intros [Hfl Hva Hpa]. split; [exact Hfl | |]; intros H.
  - apply add_type_type_flag_grows, Hva, H.
  - apply add_type_pause_flag_grows, Hpa, H.
Qed.

Lemma add_type_in_ok (c : mbedtls_mps_l2_config) (i : l2_in) (t p m e : Z) :
  in_ok c i -> in_ok (snd (mps_l2_config_add_type c t p m e)) i.
Proof.
  intros [Hperm Hast Hpp Hov]. split; try assumption.
  intros H. apply add_type_pause_flag_grows, Hpp, H.
Qed.

Lemma l2_ok_init : l2_ok mps_l2_init.
Proof.
  split; split; cbn; intros; try congruence; intuition discriminate.
Qed.

Lemma l2_call_ok (ctx : mbedtls_mps_l2) (c : l2_call) :
  l2_ok ctx -> l2_ok (snd (mps_l2_call ctx c)).
Proof.
  intros [Ho Hi]. destruct c as [t p m e | f | rc | t ep eo cl ro | u | cl]; cbn [mps_l2_call].
  - destruct (mps_l2_config_add_type (conf ctx) t p m e) as [r cf] eqn:Ha.
    cbn [snd with_conf conf out in_].
    pose proof (add_type_out_ok _ _ t p m e Ho) as Ho'.
    pose proof (add_type_in_ok _ _ t p m e Hi) as Hi'.
    rewrite Ha in Ho', Hi'. split; assumption.
  - destruct (read_start_conf_out ctx f) as [Hc Ho'].
    split; [rewrite Hc, Ho'; exact Ho | apply read_start_in_ok, Hi].
  - destruct (read_done_conf_out ctx rc) as [Hc Ho'].
    split; [rewrite Hc, Ho'; exact Ho | apply read_done_in_ok, Hi].
  - destruct (write_start_conf_in ctx t ep eo cl ro) as [Hc Hi'].
    split; [apply write_start_out_ok, Ho | rewrite Hc, Hi'; exact Hi].
  - destruct (write_done_conf_in ctx u) as [Hc Hi'].
    split; [apply write_done_out_ok, Ho | rewrite Hc, Hi'; exact Hi].
  - destruct (write_flush_conf_in ctx cl) as [Hc Hi'].
    split; [apply write_flush_out_ok, Ho | rewrite Hc, Hi'; exact Hi].
Qed.

Lemma l2_run_ok (calls : list l2_call) (ctx : mbedtls_mps_l2) :
  l2_ok ctx -> l2_ok (l2_run ctx calls).
Proof.
  revert ctx. induction calls as [| c rest IH]; intros ctx H; cbn [l2_run].
  - exact H.
  - apply IH, l2_call_ok, H.
Qed.

End L2Invariants.

(* ------------------------------------------------------------------------- *)
(** ** Invariants of the reachable Layer 2 states *)

(** C2: in every state reachable between API calls, an outgoing writer
    that is not [UNSET] has a content type in [type_flag]
    ([MPS_L2_INV_OUT_ACTIVE_IS_VALID]), and a [QUEUEING] writer has a
    content type in [pause_flag]. *)
Theorem l2_reachable_writer_type_valid (calls : list l2_call) :
  let ctx := l2_run mps_l2_init calls in
  MPS_L2_INV_OUT_ACTIVE_IS_VALID ctx = true /\
  (state (out ctx) = MBEDTLS_MPS_L2_WRITER_STATE_QUEUEING ->
   msg_type_in (writer_type (out ctx)) (pause_flag (conf ctx)) = true).
Proof.
  cbv zeta. destruct (l2_run_ok calls mps_l2_init l2_ok_init) as [[Hfl Hva Hpa] _].
  split; [| exact Hpa].
  unfold MPS_L2_INV_OUT_ACTIVE_IS_VALID.
  destruct (l2_run mps_l2_init calls) as [c [cl fl wt we st] i].
  cbn [out conf state writer_type] in *.
  destruct st; cbn [writer_state_eqb negb implb]; [reflexivity | ..];
    apply Hva; discriminate.
Qed.

(** C4: in every state reachable between API calls, a set [clearing] or
    [flush] flag implies that the writer is [UNSET] or [QUEUEING]
    ([MPS_L2_INV_IF_CLEARING_NO_WRITE] and [MPS_L2_INV_IF_FLUSH_NO_WRITE]). *)
Theorem l2_reachable_clearing_flush_no_write (calls : list l2_call) :
  let ctx := l2_run mps_l2_init calls in
  MPS_L2_INV_IF_CLEARING_NO_WRITE ctx = true /\ MPS_L2_INV_IF_FLUSH_NO_WRITE ctx = true.
Proof.
  cbv zeta. destruct (l2_run_ok calls mps_l2_init l2_ok_init) as [[Hfl _ _] _].
  unfold MPS_L2_INV_IF_CLEARING_NO_WRITE, MPS_L2_INV_IF_FLUSH_NO_WRITE.
  destruct (l2_run mps_l2_init calls) as [c [cl fl wt we st] i].
  cbn [out clearing flush state] in *.
  destruct cl, fl, st; cbn [implb writer_state_eqb orb]; try (split; reflexivity);
    exfalso; destruct Hfl as [Hs | Hs]; auto; discriminate.
Qed.

(** C5 (amended): in every state reachable between API calls, the active
    and paused pointers are a permutation of the two reader slots, a
    [PAUSED] reader has a content type in [pause_flag], and, while the
    active reader is set (not [UNSET]), it serves a content type other than
    the paused one ([MPS_L2_INV_IN_READERS_PERMUTATION],
    [MPS_L2_INV_IN_PAUSED_IS_PAUSABLE],
    [MPS_L2_INV_IN_NO_ACTIVE_PAUSED_NO_OVERLAP]). *)
Theorem l2_reachable_readers_ok (calls : list l2_call) :
  let ctx := l2_run mps_l2_init calls in
  MPS_L2_INV_IN_READERS_PERMUTATION ctx = true /\
  MPS_L2_INV_IN_PAUSED_IS_PAUSABLE ctx = true /\
  MPS_L2_INV_IN_NO_ACTIVE_PAUSED_NO_OVERLAP ctx = true.
Proof.
  cbv zeta. destruct (l2_run_ok calls mps_l2_init l2_ok_init) as [_ [Hperm _ Hpp Hov]].
  unfold MPS_L2_INV_IN_READERS_PERMUTATION, MPS_L2_INV_IN_PAUSED_IS_PAUSABLE,
    MPS_L2_INV_IN_NO_ACTIVE_PAUSED_NO_OVERLAP.
  destruct (l2_run mps_l2_init calls) as [c o [r0 r1 a p ast pst]].
  cbn [in_ conf active paused active_state paused_state] in *.
  destruct a, p, ast, pst; cbn [reader_slot_eqb reader_state_eqb andb orb negb implb];
    try congruence; repeat split;
    try (apply Hpp; reflexivity);
    (apply negb_true_iff, Z.eqb_neq; apply Hov; [reflexivity | discriminate]).
Qed.

(** C5 (counterexample): the active reader keeps the content type it last
    served when it returns to [UNSET]; a paused reader can then have the
    same content type as the active one. Configure HS (pausable,
    mergeable) and APP (pausable); read an APP record and pause it, read
    and consume an HS record on the other slot, resume and consume the APP
    reader, then read an HS record and pause it: the paused reader serves
    HS and the (unset) active reader still carries HS. *)
Lemma l2_paused_type_equals_unset_active :
  exists calls : list l2_call,
    let ctx := l2_run mps_l2_init calls in
    paused_state (in_ ctx) = MBEDTLS_MPS_L2_READER_STATE_PAUSED /\
    active_state (in_ ctx) = MBEDTLS_MPS_L2_READER_STATE_UNSET /\
    reader_type (in_ ctx) (active (in_ ctx)) = reader_type (in_ ctx) (paused (in_ ctx)).
Proof.
  exists [call_config_add_type MBEDTLS_MPS_MSG_HS 1 1 0;
          call_config_add_type MBEDTLS_MPS_MSG_APP 1 0 1;
          call_read_start (fetch_record MBEDTLS_MPS_MSG_APP); call_read_done reclaim_paused;
          call_read_start (fetch_record MBEDTLS_MPS_MSG_HS); call_read_done reclaim_consumed;
          call_read_start (fetch_record MBEDTLS_MPS_MSG_APP); call_read_done reclaim_consumed;
          call_read_start (fetch_record MBEDTLS_MPS_MSG_HS); call_read_done reclaim_paused].
  vm_compute. repeat split.
Qed.

(** [MPS_L2_INV_OUT_QUEUEING_IS_PAUSABLE] as written in layer2.h (with
    [!=]) does not hold in the initial context: the writer is [UNSET], so
    not queueing, and its type [MBEDTLS_MPS_MSG_NONE] is not pausable. *)
Example queueing_is_pausable_macro_fails_at_init :
  MPS_L2_INV_OUT_QUEUEING_IS_PAUSABLE mps_l2_init = false.
Proof. reflexivity. Qed.

(* ------------------------------------------------------------------------- *)
(** ** More on [mps_l2_config_add_type] *)

Section AddTypeBits.

(** The bits of [(uint32_t) 1u << type] for a type the range check lets
    through. *)
Lemma add_type_mask_bits (t n : Z) :
  t < MBEDTLS_MPS_MSG_MAX -> 0 <= n -> Z.testbit (uint32 (Z.shiftl 1 t)) n = (t =? n).
Proof.
  intros Ht Hn. unfold uint32. rewrite Z.shiftl_1_l.
  destruct (Z.ltb_spec t 0) as [Hneg | Hpos].
  - rewrite Z.pow_neg_r, Z.mod_0_l, Z.bits_0 by lia.
    symmetry. apply Z.eqb_neq. lia.
  - rewrite Z.mod_small.
    + apply Z.pow2_bits_eqb. exact Hpos.
    + split; [apply Z.pow_nonneg; lia |].
      apply Z.pow_lt_mono_r; unfold MBEDTLS_MPS_MSG_MAX in *; lia.
Qed.

(** Whether the call succeeds, read off the bits of [type_flag]. *)
Lemma add_type_ok_bit (c : mbedtls_mps_l2_config) (t : Z) :
  0 <= t -> t < MBEDTLS_MPS_MSG_MAX ->
  (Z.land (type_flag c) (uint32 (Z.shiftl 1 t)) =? 0) = negb (Z.testbit (type_flag c) t).
Proof.
  intros Ht0 Ht. destruct (add_type_mask_cases t Ht) as [H0 | [_ ->]].
  - rewrite Z.shiftl_1_l in H0. unfold uint32 in H0.
    rewrite Z.mod_small in H0; [| split; [apply Z.pow_nonneg; lia |
      apply Z.pow_lt_mono_r; unfold MBEDTLS_MPS_MSG_MAX in *; lia]].
    pose proof (Z.pow_pos_nonneg 2 t ltac:(lia) Ht0). lia.
  - apply land_pow2_eqb_0. exact Ht0.
Qed.

(** The bits [n] of the four bitflags after one call, for a type
    [0 <= t]: the call succeeds exactly when [t < MBEDTLS_MPS_MSG_MAX] and
    bit [t] of [type_flag] is clear, and then sets bit [t] of [type_flag]
    and of each flag whose switch is 1. *)
Lemma add_type_bits (c : mbedtls_mps_l2_config) (t p m e n : Z) :
  0 <= t -> 0 <= n ->
  let ok := (t <? MBEDTLS_MPS_MSG_MAX) && negb (Z.testbit (type_flag c) t) in
  let c' := snd (mps_l2_config_add_type c t p m e) in
  Z.testbit (type_flag c') n = Z.testbit (type_flag c) n || ok && (t =? n) /\
  Z.testbit (pause_flag c') n = Z.testbit (pause_flag c) n || ok && (t =? n) && (p =? 1) /\
  Z.testbit (merge_flag c') n = Z.testbit (merge_flag c) n || ok && (t =? n) && (m =? 1) /\
  Z.testbit (empty_flag c') n = Z.testbit (empty_flag c) n || ok && (t =? n) && (e =? 1).
Proof.
  intros Ht0 Hn ok c'. unfold c', ok, mps_l2_config_add_type.
  destruct (Z.geb_spec t MBEDTLS_MPS_MSG_MAX) as [Ht | Ht].
  - replace (t <? MBEDTLS_MPS_MSG_MAX) with false by (symmetry; apply Z.ltb_ge; lia).
    cbn [andb orb snd]. rewrite !orb_false_r. repeat split.
  - replace (t <? MBEDTLS_MPS_MSG_MAX) with true by (symmetry; apply Z.ltb_lt; lia).
    cbv zeta. rewrite (add_type_ok_bit c t Ht0 Ht).
    destruct (Z.testbit (type_flag c) t); cbn [negb andb orb snd type_flag pause_flag
      merge_flag empty_flag]; rewrite ?orb_false_r; [repeat split |].
    unfold flag_bit. rewrite !Z.lor_spec.
    destruct (p =? 1), (m =? 1), (e =? 1);
      rewrite ?Z.bits_0, ?andb_true_r, ?andb_false_r, ?add_type_mask_bits by assumption;
      repeat split.
Qed.


(** [mps_l2_config_add_type] keeps [MPS_L2_CONF_INV] in any configuration. *)
Lemma add_type_conf_inv (c : mbedtls_mps_l2_config) (t p m e : Z) :
  MPS_L2_CONF_INV c = true -> MPS_L2_CONF_INV (snd (mps_l2_config_add_type c t p m e)) = true.
Proof.
  intros Hinv. unfold mps_l2_config_add_type.
  destruct (t >=? MBEDTLS_MPS_MSG_MAX); [exact Hinv |].
  cbv zeta. remember (uint32 (Z.shiftl 1 t)) as mask eqn:Hmask.
  destruct (negb _); [exact Hinv |].
  unfold MPS_L2_CONF_INV, MPS_L2_CONF_INV_PAUSE_FLAG, MPS_L2_CONF_INV_MERGE_FLAG,
    MPS_L2_CONF_INV_EMPTY_FLAG in *; cbn [snd type_flag pause_flag merge_flag empty_flag].
  apply andb_prop in Hinv as [Hinv He]; apply andb_prop in Hinv as [Hp Hm].
  apply Z.eqb_eq in Hp, Hm, He.
  rewrite (land_subset_lor _ _ _ _ Hp (flag_bit_subset p mask)),
    (land_subset_lor _ _ _ _ Hm (flag_bit_subset m mask)),
    (land_subset_lor _ _ _ _ He (flag_bit_subset e mask)), !Z.eqb_refl.
  reflexivity.
Qed.

(** Under [MPS_L2_CONF_INV], a flag bit is a [type_flag] bit. *)
Lemma conf_inv_bits (c : mbedtls_mps_l2_config) (n : Z) :
  MPS_L2_CONF_INV c = true ->
  (Z.testbit (pause_flag c) n = true -> Z.testbit (type_flag c) n = true) /\
  (Z.testbit (merge_flag c) n = true -> Z.testbit (type_flag c) n = true) /\
  (Z.testbit (empty_flag c) n = true -> Z.testbit (type_flag c) n = true).
Proof.
  unfold MPS_L2_CONF_INV, MPS_L2_CONF_INV_PAUSE_FLAG, MPS_L2_CONF_INV_MERGE_FLAG,
    MPS_L2_CONF_INV_EMPTY_FLAG.
  intros Hinv. apply andb_prop in Hinv as [Hinv He]; apply andb_prop in Hinv as [Hp Hm].
  apply Z.eqb_eq in Hp, Hm, He.
  rewrite land_subset_iff in Hp, Hm, He. auto.
Qed.

(** Two configurations with the same bits are equal. *)
Lemma conf_bits_ext (c c' : mbedtls_mps_l2_config) :
  (forall n, 0 <= n ->
     Z.testbit (type_flag c) n = Z.testbit (type_flag c') n /\
     Z.testbit (pause_flag c) n = Z.testbit (pause_flag c') n /\
     Z.testbit (merge_flag c) n = Z.testbit (merge_flag c') n /\
     Z.testbit (empty_flag c) n = Z.testbit (empty_flag c') n) ->
  c = c'.
Proof.
  intros H. destruct c as [a b d f], c' as [a' b' d' f']; cbn in H.
  f_equal; apply Z.bits_inj'; intros n Hn; apply H, Hn.
Qed.

End AddTypeBits.

(** The result code of one call, for a type [0 <= t]. *)
Lemma add_type_ret (c : mbedtls_mps_l2_config) (t p m e : Z) :
  0 <= t ->
  fst (mps_l2_config_add_type c t p m e) =
  if t >=? MBEDTLS_MPS_MSG_MAX then MPS_ERR_INVALID_RECORD
  else if Z.testbit (type_flag c) t then MPS_ERR_INVALID_ARGS else MPS_OK.
Proof.
  intros Ht0. unfold mps_l2_config_add_type.
  destruct (Z.geb_spec t MBEDTLS_MPS_MSG_MAX) as [Ht | Ht]; [reflexivity |].
  cbv zeta. rewrite (add_type_ok_bit c t Ht0 Ht).
  destruct (Z.testbit (type_flag c) t); reflexivity.
Qed.

Section FirstRegistration.

(** One of the three flags and its switch. *)
Variable flag : mbedtls_mps_l2_config -> Z.
Variable switch : Z * Z * Z -> Z.
Hypothesis flag_step : forall c t p m e n, 0 <= t -> 0 <= n ->
  Z.testbit (flag (snd (mps_l2_config_add_type c t p m e))) n =
  Z.testbit (flag c) n ||
  (t <? MBEDTLS_MPS_MSG_MAX) && negb (Z.testbit (type_flag c) t) && (t =? n)
    && (switch (p, m, e) =? 1).
Hypothesis flag_sub : forall c n, MPS_L2_CONF_INV c = true ->
  Z.testbit (flag c) n = true -> Z.testbit (type_flag c) n = true.

Lemma add_types_first_flag (calls : list (Z * Z * Z * Z)) (c : mbedtls_mps_l2_config) (n : Z) :
  Forall (fun '(t, _, _, _) => 0 <= t) calls ->
  MPS_L2_CONF_INV c = true -> 0 <= n ->
  Z.testbit (flag (add_types c calls)) n =
  if Z.testbit (type_flag c) n then Z.testbit (flag c) n
  else match add_types_first n calls with
       | Some sw => (n <? MBEDTLS_MPS_MSG_MAX) && (switch sw =? 1)
       | None => false
       end.
Proof.
  revert c. induction calls as [| [[[t p] m] e] rest IH]; intros c Hall Hinv Hn.
  - cbn [add_types add_types_first].
    destruct (Z.testbit (type_flag c) n) eqn:Ht; [reflexivity |].
    destruct (Z.testbit (flag c) n) eqn:Hf; [| reflexivity].
    rewrite (flag_sub c n Hinv Hf) in Ht. discriminate.
  - inversion Hall as [| ? ? Ht0 Hrest]; subst.
    cbn [add_types add_types_first].
    set (c' := snd (mps_l2_config_add_type c t p m e)).
    pose proof (add_type_conf_inv c t p m e Hinv) as Hinv'. fold c' in Hinv'.
    destruct (add_type_bits c t p m e n Ht0 Hn) as (Hty & _).
    fold c' in Hty.
    pose proof (flag_step c t p m e n Ht0 Hn) as Hfl. fold c' in Hfl.
    rewrite (IH c' Hrest Hinv' Hn), Hty, Hfl.
    destruct (Z.eqb_spec t n) as [<- | Hne].
    + destruct (Z.testbit (type_flag c) t) eqn:Ht; cbn [negb andb orb];
        rewrite ?andb_false_r, ?orb_false_r, ?orb_true_r; [reflexivity |].
      destruct (Z.testbit (flag c) t) eqn:Hf;
        [rewrite (flag_sub c t Hinv Hf) in Ht; discriminate |].
      rewrite ?Z.eqb_refl, !andb_true_r. cbn [orb].
      destruct (t <? MBEDTLS_MPS_MSG_MAX) eqn:Hlt; cbn [andb]; [reflexivity |].
      destruct (add_types_first t rest) as [sw |]; rewrite ?Hlt; reflexivity.
    + rewrite !andb_false_r, !orb_false_r. reflexivity.
Qed.

End FirstRegistration.

(* ------------------------------------------------------------------------- *)
(** ** Further properties of [mps_l2_config_add_type] *)




(** X3: registering two different content types does not depend on the order:
    the first call does not change the result of the second, and both
    orders leave the same configuration. *)
Theorem add_type_distinct_commute (c : mbedtls_mps_l2_config)
    (t1 p1 m1 e1 t2 p2 m2 e2 : Z) :
  0 <= t1 -> 0 <= t2 -> t1 <> t2 ->
  fst (mps_l2_config_add_type (snd (mps_l2_config_add_type c t1 p1 m1 e1)) t2 p2 m2 e2) =
    fst (mps_l2_config_add_type c t2 p2 m2 e2) /\
  snd (mps_l2_config_add_type (snd (mps_l2_config_add_type c t1 p1 m1 e1)) t2 p2 m2 e2) =
    snd (mps_l2_config_add_type (snd (mps_l2_config_add_type c t2 p2 m2 e2)) t1 p1 m1 e1).
Proof.
  intros H1 H2 Hne.
  set (c1 := snd (mps_l2_config_add_type c t1 p1 m1 e1)).
  set (c2 := snd (mps_l2_config_add_type c t2 p2 m2 e2)).
  assert (Hb1 : Z.testbit (type_flag c1) t2 = Z.testbit (type_flag c) t2).
  { pose proof (add_type_bits c t1 p1 m1 e1 t2 H1 H2) as HB; cbv zeta in HB; fold c1 in HB.
    destruct HB as [-> _].
    apply Z.eqb_neq in Hne. rewrite Hne, andb_false_r, orb_false_r. reflexivity. }
  assert (Hb2 : Z.testbit (type_flag c2) t1 = Z.testbit (type_flag c) t1).
  { pose proof (add_type_bits c t2 p2 m2 e2 t1 H2 H1) as HB; cbv zeta in HB; fold c2 in HB.
    destruct HB as [-> _].
    assert (Hne' : (t2 =? t1) = false) by (apply Z.eqb_neq; congruence).
    rewrite Hne', andb_false_r, orb_false_r. reflexivity. }
  split.
  - rewrite !add_type_ret by assumption. rewrite Hb1. reflexivity.
  - apply conf_bits_ext. intros n Hn.
    pose proof (add_type_bits c1 t2 p2 m2 e2 n H2 Hn) as (A & B & C & D).
    pose proof (add_type_bits c2 t1 p1 m1 e1 n H1 Hn) as (A' & B' & C' & D').
    pose proof (add_type_bits c t1 p1 m1 e1 n H1 Hn) as HB1; cbv zeta in HB1; fold c1 in HB1.
    pose proof (add_type_bits c t2 p2 m2 e2 n H2 Hn) as HB2; cbv zeta in HB2; fold c2 in HB2.
    destruct HB1 as (A1 & B1 & C1 & D1). destruct HB2 as (A2 & B2 & C2 & D2).
    rewrite A, B, C, D, A', B', C', D', Hb1, Hb2, A1, B1, C1, D1, A2, B2, C2, D2.
    destruct (Z.eqb_spec t1 n), (Z.eqb_spec t2 n); try (exfalso; congruence);
      rewrite ?andb_false_r, ?orb_false_r, ?andb_true_r; repeat split.
    all: rewrite orb_comm; reflexivity || (rewrite <- !orb_assoc; f_equal; apply orb_comm).
Qed.

Lemma add_type_distinct_commute_witness :
  0 <= MBEDTLS_MPS_MSG_HS /\ 0 <= MBEDTLS_MPS_MSG_APP /\
  MBEDTLS_MPS_MSG_HS <> MBEDTLS_MPS_MSG_APP /\
  snd (mps_l2_config_add_type (snd (mps_l2_config_add_type conf_zero MBEDTLS_MPS_MSG_HS 1 1 0))
         MBEDTLS_MPS_MSG_APP 0 0 1) =
  snd (mps_l2_config_add_type (snd (mps_l2_config_add_type conf_zero MBEDTLS_MPS_MSG_APP 0 0 1))
         MBEDTLS_MPS_MSG_HS 1 1 0).
Proof.
  unfold MBEDTLS_MPS_MSG_HS, MBEDTLS_MPS_MSG_APP.
  split; [lia | split; [lia | split; [lia |]]].
  apply (add_type_distinct_commute conf_zero 22 1 1 0 23 0 0 1); lia.
Defined.

(** X4: after a sequence of [mps_l2_config_add_type] calls (with unsigned
    content types), bit [n] of [type_flag] is set exactly when it was set
    before or [n < MBEDTLS_MPS_MSG_MAX] and some call names content type
    [n]. *)
Theorem add_types_type_flag (calls : list (Z * Z * Z * Z)) (c : mbedtls_mps_l2_config) (n : Z) :
  Forall (fun '(t, _, _, _) => 0 <= t) calls -> 0 <= n ->
  Z.testbit (type_flag (add_types c calls)) n =
  Z.testbit (type_flag c) n ||
  (n <? MBEDTLS_MPS_MSG_MAX) && existsb (fun '(t, _, _, _) => t =? n) calls.
Proof.
  revert c. induction calls as [| [[[t p] m] e] rest IH]; intros c Hall Hn.
  - cbn. rewrite andb_false_r, orb_false_r. reflexivity.
  - inversion Hall as [| ? ? Ht0 Hrest]; subst.
    cbn [add_types existsb].
    rewrite (IH _ Hrest Hn).
    pose proof (add_type_bits c t p m e n Ht0 Hn) as [-> _].
    destruct (Z.eqb_spec t n) as [<- | Hne].
    + destruct (Z.testbit (type_flag c) t), (t <? MBEDTLS_MPS_MSG_MAX); reflexivity.
    + rewrite andb_false_r, orb_false_r. reflexivity.
Qed.

Lemma add_types_type_flag_witness :
  Forall (fun '(t, _, _, _) => 0 <= t)
    [(MBEDTLS_MPS_MSG_HS, 1, 1, 0); (31, 0, 0, 0); (MBEDTLS_MPS_MSG_HS, 0, 0, 0)] /\
  0 <= MBEDTLS_MPS_MSG_HS /\
  Z.testbit (type_flag (add_types conf_zero
    [(MBEDTLS_MPS_MSG_HS, 1, 1, 0); (31, 0, 0, 0); (MBEDTLS_MPS_MSG_HS, 0, 0, 0)]))
    MBEDTLS_MPS_MSG_HS = true.
Proof.
  unfold MBEDTLS_MPS_MSG_HS.
  split; [repeat constructor; lia | split; [lia |]].
  rewrite (add_types_type_flag _ conf_zero 22) by (repeat constructor; lia).
  reflexivity.
Defined.

(** X5: after a sequence of [mps_l2_config_add_type] calls from a
    configuration satisfying [MPS_L2_CONF_INV], the pause (merge, empty)
    bit of a content type [n] that was not yet configured is set exactly
    when [n < MBEDTLS_MPS_MSG_MAX] and the FIRST call naming [n] passes
    pausing (merging, empty) equal to 1: later calls for [n] change
    nothing. Bits of content types configured before are left as they
    were. *)
Theorem add_types_first_registration (calls : list (Z * Z * Z * Z))
    (c : mbedtls_mps_l2_config) (n : Z) :
  Forall (fun '(t, _, _, _) => 0 <= t) calls ->
  MPS_L2_CONF_INV c = true -> 0 <= n ->
  let c' := add_types c calls in
  Z.testbit (pause_flag c') n =
    (if Z.testbit (type_flag c) n then Z.testbit (pause_flag c) n
     else match add_types_first n calls with
          | Some (p, _, _) => (n <? MBEDTLS_MPS_MSG_MAX) && (p =? 1)
          | None => false
          end) /\
  Z.testbit (merge_flag c') n =
    (if Z.testbit (type_flag c) n then Z.testbit (merge_flag c) n
     else match add_types_first n calls with
          | Some (_, m, _) => (n <? MBEDTLS_MPS_MSG_MAX) && (m =? 1)
          | None => false
          end) /\
  Z.testbit (empty_flag c') n =
    (if Z.testbit (type_flag c) n then Z.testbit (empty_flag c) n
     else match add_types_first n calls with
          | Some (_, _, e) => (n <? MBEDTLS_MPS_MSG_MAX) && (e =? 1)
          | None => false
          end).
Proof.
  intros Hall Hinv Hn c'. unfold c'.
  rewrite (add_types_first_flag pause_flag (fun sw => fst (fst sw))),
    (add_types_first_flag merge_flag (fun sw => snd (fst sw))),
    (add_types_first_flag empty_flag (fun sw => snd sw)) by
    first [ assumption
          | intros c0 n0 H0; apply (conf_inv_bits c0 n0 H0)
          | intros c0 t p m e n0 Ht Hn0; cbv beta;
            destruct (add_type_bits c0 t p m e n0 Ht Hn0) as (_ & ? & ? & ?);
            cbn [fst snd]; assumption ].
  destruct (Z.testbit (type_flag c) n); [repeat split |].
  destruct (add_types_first n calls) as [[[p m] e] |]; repeat split.
Qed.

Lemma add_types_first_registration_witness :
  Forall (fun '(t, _, _, _) => 0 <= t)
    [(MBEDTLS_MPS_MSG_HS, 1, 1, 0); (MBEDTLS_MPS_MSG_HS, 0, 0, 1)] /\
  MPS_L2_CONF_INV conf_zero = true /\ 0 <= MBEDTLS_MPS_MSG_HS /\
  Z.testbit (pause_flag (add_types conf_zero
    [(MBEDTLS_MPS_MSG_HS, 1, 1, 0); (MBEDTLS_MPS_MSG_HS, 0, 0, 1)])) MBEDTLS_MPS_MSG_HS = true /\
  Z.testbit (empty_flag (add_types conf_zero
    [(MBEDTLS_MPS_MSG_HS, 1, 1, 0); (MBEDTLS_MPS_MSG_HS, 0, 0, 1)])) MBEDTLS_MPS_MSG_HS = false.
Proof.
  unfold MBEDTLS_MPS_MSG_HS.
  split; [repeat constructor; lia | split; [reflexivity | split; [lia |]]].
  destruct (add_types_first_registration
    [(22, 1, 1, 0); (22, 0, 0, 1)] conf_zero 22) as (Hp & _ & He);
    [repeat constructor; lia | reflexivity | lia |].
  rewrite Hp, He. split; reflexivity.
Defined.

(* ------------------------------------------------------------------------- *)
(** ** Further properties of the parsing and writing macros *)

Section SerializationMore.

(** Every byte of a buffer after a store. *)
Lemma buf_store_nth_full (buf bs : list Z) (off j : nat) :
  (off + length bs <= length buf)%nat ->
  nth j (buf_store buf off bs) 0 =
  if (off <=? j)%nat && (j <? off + length bs)%nat then uint8 (nth (j - off) bs 0)
  else nth j buf 0.
Proof.
  intros H. unfold buf_store.
  destruct (Nat.leb_spec off j) as [Hoj | Hoj]; cbn [andb].
  - rewrite app_nth2 by (rewrite length_firstn; lia).
    rewrite length_firstn. replace (Init.Nat.min off (length buf)) with off by lia.
    destruct (Nat.ltb_spec j (off + length bs)) as [Hj | Hj].
    + rewrite app_nth1 by (rewrite length_map; lia).
      change 0 with (uint8 0) at 1. apply map_nth.
    + rewrite app_nth2 by (rewrite length_map; lia).
      rewrite length_map, nth_skipn. f_equal. lia.
  - rewrite app_nth1 by (rewrite length_firstn; lia).
    rewrite nth_firstn. replace (j <? off)%nat with true by (symmetry; apply Nat.ltb_lt; lia).
    reflexivity.
Qed.

(** Each writing macro stores a fixed list of [w/8] bytes. *)
Lemma write_uint_be_store (w v : Z) :
  In w [8; 16; 24; 32; 48] ->
  exists bs, length bs = Z.to_nat (w / 8) /\
    forall buf off, MPS_WRITE_UINT_BE w v buf off = buf_store buf off bs.
Proof.
  intros Hw. unfold MPS_WRITE_UINT_BE.
  destruct Hw as [<- | [<- | [<- | [<- | [<- | []]]]]]; cbn [Z.eqb Pos.eqb];
    eexists; (split; [| intros buf off; reflexivity]); reflexivity.
Qed.

(** Each reading macro reads the [w/8] bytes at [off] only. *)
Lemma read_uint_be_window (w : Z) (buf buf' : list Z) (off off' : nat) :
  In w [8; 16; 24; 32; 48] ->
  (forall k, (k < Z.to_nat (w / 8))%nat -> nth (off + k) buf 0 = nth (off' + k) buf' 0) ->
  MPS_READ_UINT_BE w buf off = MPS_READ_UINT_BE w buf' off'.
Proof.
  intros Hw H. unfold MPS_READ_UINT_BE, MPS_READ_UINT8_BE, MPS_READ_UINT16_BE,
    MPS_READ_UINT24_BE, MPS_READ_UINT32_BE, MPS_READ_UINT48_BE, buf_at.
  destruct Hw as [<- | [<- | [<- | [<- | [<- | []]]]]]; cbn [Z.eqb Pos.eqb] in *;
    rewrite ?(H 0%nat), ?(H 1%nat), ?(H 2%nat), ?(H 3%nat), ?(H 4%nat), ?(H 5%nat)
      by (cbn; lia); reflexivity.
Qed.

(** A base-256 digit of a number made of a higher part, a byte [b] at
    position [k] and a lower part. *)
Lemma digit_of (v hi b lo k : Z) :
  0 <= k -> 0 <= b < 256 -> 0 <= lo < 2 ^ k -> v = (hi * 256 + b) * 2 ^ k + lo ->
  v / 2 ^ k mod 256 = b.
Proof.
  intros Hk Hb Hlo ->.
  assert (Hp : 0 < 2 ^ k) by (apply Z.pow_pos_nonneg; lia).
  rewrite Z.div_add_l by lia. rewrite (Z.div_small lo) by lia.
  rewrite Z.add_0_r, Z.add_comm, Z.mod_add by lia. apply Z.mod_small; lia.
Qed.

(** The bits of [(v >> k) & 0xFF] for [k + 8 <= w] are bits of [v] below
    [w]. *)
Lemma byte_mod_pow2 (v w k : Z) :
  0 <= k -> k + 8 <= w -> Z.land (Z.shiftr v k) 255 = Z.land (Z.shiftr (v mod 2 ^ w) k) 255.
Proof.
  intros Hk Hkw. change 255 with (Z.ones 8).
  apply Z.bits_inj'. intros i Hi. rewrite !Z.land_spec, !Z.shiftr_spec by lia.
  destruct (Z.ltb_spec i 8) as [Hi8 | Hi8].
  - rewrite Z.mod_pow2_bits_low by lia. reflexivity.
  - rewrite Z.ones_spec_high by lia. rewrite !andb_false_r. reflexivity.
Qed.

(** Split a buffer around a window of [n] bytes at [off]. *)
Lemma buf_split (buf : list Z) (off n : nat) :
  (off + n <= length buf)%nat ->
  exists pre ws rest, buf = pre ++ ws ++ rest /\ length pre = off /\ length ws = n.
Proof.
  intros H. exists (firstn off buf), (firstn n (skipn off buf)), (skipn n (skipn off buf)).
  rewrite !firstn_skipn. split; [reflexivity |].
  rewrite length_firstn, length_firstn, length_skipn. lia.
Qed.

Lemma buf_store_split (pre ws rest bs : list Z) :
  length ws = length bs ->
  buf_store (pre ++ ws ++ rest) (length pre) bs = pre ++ map uint8 bs ++ rest.
Proof.
  intros H. unfold buf_store.
  rewrite firstn_app, Nat.sub_diag, firstn_O, app_nil_r, firstn_all.
  rewrite skipn_app, skipn_all2 by lia. cbn [app].
  replace (length pre + length bs - length pre)%nat with (length ws) by lia.
  rewrite skipn_app, skipn_all, Nat.sub_diag, skipn_O. reflexivity.
Qed.

Lemma buf_at_split (pre ws rest : list Z) (k : nat) :
  (k < length ws)%nat -> buf_at (pre ++ ws ++ rest) (length pre) k = nth k ws 0.
Proof.
  intros H. unfold buf_at. rewrite app_nth2 by lia.
  replace (length pre + k - length pre)%nat with k by lia. apply app_nth1, H.
Qed.

Lemma uint8_byte (b : Z) : is_byte b -> uint8 b = b.
Proof. unfold is_byte, uint8. intros H. apply Z.mod_small. exact H. Qed.

End SerializationMore.

(** The writing macros of widths 16 to 48 only use the low [w] bits of
    the value. *)
Lemma write_uint_be_mod (w v : Z) (buf : list Z) (off : nat) :
  In w [16; 24; 32; 48] ->
  MPS_WRITE_UINT_BE w v buf off = MPS_WRITE_UINT_BE w (v mod 2 ^ w) buf off.
Proof.
  intros Hw. unfold MPS_WRITE_UINT_BE, MPS_WRITE_UINT16_BE, MPS_WRITE_UINT24_BE,
    MPS_WRITE_UINT32_BE, MPS_WRITE_UINT48_BE.
  destruct Hw as [<- | [<- | [<- | [<- | []]]]]; cbn [Z.eqb Pos.eqb].
  - rewrite !(byte_mod_pow2 v 16) by lia. reflexivity.
  - rewrite !(byte_mod_pow2 v 24) by lia. reflexivity.
  - rewrite !(byte_mod_pow2 v 32) by lia. reflexivity.
  - rewrite !(byte_mod_pow2 v 48) by lia. reflexivity.
Qed.

(** The [k]-th base-256 digit of a number given by its higher part, the
    byte and its lower part. *)
Ltac dig hi lo := apply (digit_of _ hi _ lo); [lia | lia | lia | lia].

(** X6: for a width [w] of 16, 24, 32 or 48 bits, writing any value [v]
    with [MPS_WRITE_UINTw_BE] and reading the field back with
    [MPS_READ_UINTw_BE] gives [v] reduced modulo [2^w]: the bits of [v]
    from bit [w] on are dropped. *)
Theorem mps_uint_be_write_truncates (w v : Z) (buf : list Z) (off : nat) :
  In w [16; 24; 32; 48] -> (off + Z.to_nat (w / 8) <= length buf)%nat ->
  MPS_READ_UINT_BE w (MPS_WRITE_UINT_BE w v buf off) off = v mod 2 ^ w.
Proof.
  intros Hw Hl. rewrite write_uint_be_mod by exact Hw.
  assert (Hb : 0 <= v mod 2 ^ w < 2 ^ w).
  { apply Z.mod_pos_bound. destruct Hw as [<- | [<- | [<- | [<- | []]]]]; lia. }
  unfold MPS_WRITE_UINT_BE, MPS_READ_UINT_BE.
  destruct Hw as [<- | [<- | [<- | [<- | []]]]]; cbn [Z.eqb Pos.eqb] in *.
  - exact (proj1 (uint16_write_read _ buf off Hb Hl)).
  - exact (proj1 (uint24_write_read _ buf off Hb Hl)).
  - exact (proj1 (uint32_write_read _ buf off Hb Hl)).
  - exact (proj1 (uint48_write_read _ buf off Hb Hl)).
Qed.

Lemma mps_uint_be_write_truncates_witness :
  (1 + Z.to_nat (16 / 8) <= length [0; 0; 0; 0])%nat /\
  MPS_READ_UINT_BE 16 (MPS_WRITE_UINT_BE 16 0x12345 [0; 0; 0; 0] 1) 1 = 0x2345.
Proof.
  split; [cbn; lia |].
  apply (mps_uint_be_write_truncates 16 0x12345 [0; 0; 0; 0] 1);
    [cbn; tauto | cbn; lia].
Defined.

(** X7: for every width, reading a field of a byte buffer with
    [MPS_READ_UINTw_BE] and writing the value back at the same offset with
    [MPS_WRITE_UINTw_BE] leaves the buffer as it was. *)
Theorem mps_uint_be_read_write (w : Z) (buf : list Z) (off : nat) :
  In w [8; 16; 24; 32; 48] -> Forall is_byte buf ->
  (off + Z.to_nat (w / 8) <= length buf)%nat ->
  MPS_WRITE_UINT_BE w (MPS_READ_UINT_BE w buf off) buf off = buf.
Proof.
  intros Hw Hb Hl.
  destruct (buf_split buf off _ Hl) as (pre & ws & rest & -> & <- & Hws).
  apply Forall_app in Hb as [_ Hb]. apply Forall_app in Hb as [Hb _].
  unfold MPS_WRITE_UINT_BE, MPS_READ_UINT_BE, MPS_WRITE_UINT8_BE, MPS_READ_UINT8_BE,
    MPS_WRITE_UINT16_BE, MPS_READ_UINT16_BE, MPS_WRITE_UINT24_BE, MPS_READ_UINT24_BE,
    MPS_WRITE_UINT32_BE, MPS_READ_UINT32_BE, MPS_WRITE_UINT48_BE, MPS_READ_UINT48_BE.
  destruct Hw as [<- | [<- | [<- | [<- | [<- | []]]]]]; cbn [Z.eqb Pos.eqb] in *;
    [change (Z.to_nat (8 / 8)) with 1%nat in Hws | change (Z.to_nat (16 / 8)) with 2%nat in Hws
    | change (Z.to_nat (24 / 8)) with 3%nat in Hws | change (Z.to_nat (32 / 8)) with 4%nat in Hws
    | change (Z.to_nat (48 / 8)) with 6%nat in Hws].
  - destruct ws as [| b0 [|]]; try discriminate.
    inversion_clear Hb. rewrite buf_at_split by (cbn; lia). cbn [nth].
    rewrite buf_store_split by reflexivity. cbn [map]. rewrite uint8_byte by assumption.
    reflexivity.
  - destruct ws as [| b0 [| b1 [|]]]; try discriminate.
    repeat match goal with H : Forall _ (_ :: _) |- _ => inversion_clear H end.
    unfold is_byte in *.
    rewrite !buf_at_split by (cbn; lia). cbn [nth].
    rewrite buf_store_split by reflexivity. cbn [map]. rewrite !byte_digit by lia.
    rewrite !Z.shiftl_mul_pow2 by lia. unfold uint16. rewrite (Z.mod_small (_ + _)) by lia.
    repeat f_equal; [dig 0 b1 | dig b0 0].
  - destruct ws as [| b0 [| b1 [| b2 [|]]]]; try discriminate.
    repeat match goal with H : Forall _ (_ :: _) |- _ => inversion_clear H end.
    unfold is_byte in *.
    rewrite !buf_at_split by (cbn; lia). cbn [nth].
    rewrite buf_store_split by reflexivity. cbn [map]. rewrite !byte_digit by lia.
    rewrite !Z.shiftl_mul_pow2 by lia. unfold uint32. rewrite (Z.mod_small (_ + _)) by lia.
    repeat f_equal; [dig 0 (b1 * 256 + b2) | dig b0 b2 | dig (b0 * 256 + b1) 0].
  - destruct ws as [| b0 [| b1 [| b2 [| b3 [|]]]]]; try discriminate.
    repeat match goal with H : Forall _ (_ :: _) |- _ => inversion_clear H end.
    unfold is_byte in *.
    rewrite !buf_at_split by (cbn; lia). cbn [nth].
    rewrite buf_store_split by reflexivity. cbn [map]. rewrite !byte_digit by lia.
    rewrite !Z.shiftl_mul_pow2 by lia. unfold uint32. rewrite (Z.mod_small (_ + _)) by lia.
    repeat f_equal;
      [dig 0 ((b1 * 256 + b2) * 256 + b3) | dig b0 (b2 * 256 + b3)
      | dig (b0 * 256 + b1) b3 | dig ((b0 * 256 + b1) * 256 + b2) 0].
  - destruct ws as [| b0 [| b1 [| b2 [| b3 [| b4 [| b5 [|]]]]]]]; try discriminate.
    repeat match goal with H : Forall _ (_ :: _) |- _ => inversion_clear H end.
    unfold is_byte in *.
    rewrite !buf_at_split by (cbn; lia). cbn [nth].
    rewrite buf_store_split by reflexivity. cbn [map]. rewrite !byte_digit by lia.
    rewrite !Z.shiftl_mul_pow2 by lia. unfold uint64. rewrite (Z.mod_small (_ + _)) by lia.
    repeat f_equal;
      [dig 0 ((((b1 * 256 + b2) * 256 + b3) * 256 + b4) * 256 + b5)
      | dig b0 (((b2 * 256 + b3) * 256 + b4) * 256 + b5)
      | dig (b0 * 256 + b1) ((b3 * 256 + b4) * 256 + b5)
      | dig ((b0 * 256 + b1) * 256 + b2) (b4 * 256 + b5)
      | dig (((b0 * 256 + b1) * 256 + b2) * 256 + b3) b5
      | dig ((((b0 * 256 + b1) * 256 + b2) * 256 + b3) * 256 + b4) 0].
Qed.

Lemma mps_uint_be_read_write_witness :
  Forall is_byte [7; 0xAB; 0xCD; 0xEF; 9] /\
  (1 + Z.to_nat (24 / 8) <= length [7; 0xAB; 0xCD; 0xEF; 9])%nat /\
  MPS_WRITE_UINT_BE 24 (MPS_READ_UINT_BE 24 [7; 0xAB; 0xCD; 0xEF; 9] 1)
    [7; 0xAB; 0xCD; 0xEF; 9] 1 = [7; 0xAB; 0xCD; 0xEF; 9].
Proof.
  assert (Hb : Forall is_byte [7; 0xAB; 0xCD; 0xEF; 9])
    by (repeat constructor; unfold is_byte; lia).
  split; [exact Hb | split; [cbn; lia |]].
  apply (mps_uint_be_read_write 24 [7; 0xAB; 0xCD; 0xEF; 9] 1);
    [cbn; tauto | exact Hb | cbn; lia].
Defined.

(** X8: a write of width [w] at offset [off] keeps the length of the
    buffer and changes no byte outside the [w/8] bytes at [off]. *)
Theorem mps_uint_be_write_frame (w v : Z) (buf : list Z) (off : nat) :
  In w [8; 16; 24; 32; 48] -> (off + Z.to_nat (w / 8) <= length buf)%nat ->
  length (MPS_WRITE_UINT_BE w v buf off) = length buf /\
  forall j, (j < off \/ off + Z.to_nat (w / 8) <= j)%nat ->
    nth j (MPS_WRITE_UINT_BE w v buf off) 0 = nth j buf 0.
Proof.
  intros Hw Hl. destruct (write_uint_be_store w v Hw) as (bs & Hbs & H).
  rewrite H. split.
  - apply buf_store_length. lia.
  - intros j Hj. rewrite buf_store_nth_full by lia.
    destruct (Nat.leb_spec off j), (Nat.ltb_spec j (off + length bs));
      cbn [andb]; try reflexivity; lia.
Qed.

Lemma mps_uint_be_write_frame_witness :
  (2 + Z.to_nat (32 / 8) <= length [1; 2; 3; 4; 5; 6; 7])%nat /\
  nth 6 (MPS_WRITE_UINT_BE 32 0xDEADBEEF [1; 2; 3; 4; 5; 6; 7] 2) 0 = 7.
Proof.
  split; [cbn; lia |].
  apply (proj2 (mps_uint_be_write_frame 32 0xDEADBEEF [1; 2; 3; 4; 5; 6; 7] 2
    ltac:(cbn; tauto) ltac:(cbn; lia)) 6%nat). cbn; lia.
Defined.

(** X9: writing a field twice at the same offset with the same width
    gives the buffer of the second write alone. *)
Theorem mps_uint_be_overwrite (w v1 v2 : Z) (buf : list Z) (off : nat) :
  In w [8; 16; 24; 32; 48] -> (off + Z.to_nat (w / 8) <= length buf)%nat ->
  MPS_WRITE_UINT_BE w v2 (MPS_WRITE_UINT_BE w v1 buf off) off =
  MPS_WRITE_UINT_BE w v2 buf off.
Proof.
  intros Hw Hl.
  destruct (write_uint_be_store w v1 Hw) as (bs1 & Hl1 & H1).
  destruct (write_uint_be_store w v2 Hw) as (bs2 & Hl2 & H2).
  rewrite !H2, H1.
  assert (Hs : length (buf_store buf off bs1) = length buf) by (apply buf_store_length; lia).
  apply nth_ext with 0 0.
  - rewrite !buf_store_length; lia.
  - intros j _. rewrite !buf_store_nth_full by lia.
    destruct ((off <=? j) && (j <? off + length bs2))%nat eqn:E; [reflexivity |].
    rewrite Hl1, <- Hl2, E. reflexivity.
Qed.

Lemma mps_uint_be_overwrite_witness :
  (0 + Z.to_nat (16 / 8) <= length [0; 0; 0])%nat /\
  MPS_WRITE_UINT_BE 16 0x0102 (MPS_WRITE_UINT_BE 16 0xFFFF [0; 0; 0] 0) 0 =
  MPS_WRITE_UINT_BE 16 0x0102 [0; 0; 0] 0.
Proof.
  split; [cbn; lia |].
  apply (mps_uint_be_overwrite 16 0xFFFF 0x0102 [0; 0; 0] 0); [cbn; tauto | cbn; lia].
Defined.

(** X10: two writes to non-overlapping fields of a buffer give the same
    buffer in either order. *)
Theorem mps_uint_be_disjoint_writes_commute (w1 w2 v1 v2 : Z) (buf : list Z)
    (off1 off2 : nat) :
  In w1 [8; 16; 24; 32; 48] -> In w2 [8; 16; 24; 32; 48] ->
  (off1 + Z.to_nat (w1 / 8) <= off2 \/ off2 + Z.to_nat (w2 / 8) <= off1)%nat ->
  (off1 + Z.to_nat (w1 / 8) <= length buf)%nat ->
  (off2 + Z.to_nat (w2 / 8) <= length buf)%nat ->
  MPS_WRITE_UINT_BE w1 v1 (MPS_WRITE_UINT_BE w2 v2 buf off2) off1 =
  MPS_WRITE_UINT_BE w2 v2 (MPS_WRITE_UINT_BE w1 v1 buf off1) off2.
Proof.
  intros Hw1 Hw2 Hd Hl1 Hl2.
  destruct (write_uint_be_store w1 v1 Hw1) as (bs1 & Hb1 & H1).
  destruct (write_uint_be_store w2 v2 Hw2) as (bs2 & Hb2 & H2).
  rewrite !H1, !H2.
  remember (Z.to_nat (w1 / 8)) as n1. remember (Z.to_nat (w2 / 8)) as n2.
  assert (Hs1 : length (buf_store buf off1 bs1) = length buf) by (apply buf_store_length; lia).
  assert (Hs2 : length (buf_store buf off2 bs2) = length buf) by (apply buf_store_length; lia).
  apply nth_ext with 0 0.
  - rewrite !buf_store_length; lia.
  - intros j _. rewrite !buf_store_nth_full by lia.
    destruct (Nat.leb_spec off1 j), (Nat.ltb_spec j (off1 + length bs1)),
      (Nat.leb_spec off2 j), (Nat.ltb_spec j (off2 + length bs2));
      cbn [andb]; try reflexivity; lia.
Qed.

Lemma mps_uint_be_disjoint_writes_commute_witness :
  (0 + Z.to_nat (16 / 8) <= 2 \/ 2 + Z.to_nat (24 / 8) <= 0)%nat /\
  MPS_WRITE_UINT_BE 16 0x0A0B (MPS_WRITE_UINT_BE 24 0x010203 [0; 0; 0; 0; 0] 2) 0 =
  MPS_WRITE_UINT_BE 24 0x010203 (MPS_WRITE_UINT_BE 16 0x0A0B [0; 0; 0; 0; 0] 0) 2.
Proof.
  split; [left; cbn; lia |].
  apply (mps_uint_be_disjoint_writes_commute 16 24 0x0A0B 0x010203 [0; 0; 0; 0; 0] 0 2);
    [cbn; tauto | cbn; tauto | left; cbn; lia | cbn; lia | cbn; lia].
Defined.

(** X11: reading a field with [MPS_READ_UINTw_BE] is not affected by a
    write of another, non-overlapping field of the buffer. *)
Theorem mps_uint_be_read_other_field (w1 w2 v : Z) (buf : list Z) (off1 off2 : nat) :
  In w1 [8; 16; 24; 32; 48] -> In w2 [8; 16; 24; 32; 48] ->
  (off1 + Z.to_nat (w1 / 8) <= off2 \/ off2 + Z.to_nat (w2 / 8) <= off1)%nat ->
  (off2 + Z.to_nat (w2 / 8) <= length buf)%nat ->
  MPS_READ_UINT_BE w1 (MPS_WRITE_UINT_BE w2 v buf off2) off1 = MPS_READ_UINT_BE w1 buf off1.
Proof.
  intros Hw1 Hw2 Hd Hl.
  destruct (write_uint_be_store w2 v Hw2) as (bs & Hb & H). rewrite H.
  apply read_uint_be_window; [exact Hw1 |]. intros k Hk.
  rewrite buf_store_nth_full by lia.
  destruct (Nat.leb_spec off2 (off1 + k)), (Nat.ltb_spec (off1 + k) (off2 + length bs));
    cbn [andb]; try reflexivity; lia.
Qed.

Lemma mps_uint_be_read_other_field_witness :
  (0 + Z.to_nat (16 / 8) <= 2 \/ 2 + Z.to_nat (8 / 8) <= 0)%nat /\
  MPS_READ_UINT_BE 16 (MPS_WRITE_UINT_BE 8 0x55 [0x12; 0x34; 0] 2) 0 = 0x1234.
Proof.
  split; [left; cbn; lia |].
  rewrite (mps_uint_be_read_other_field 16 8 0x55 [0x12; 0x34; 0] 0 2);
    [reflexivity | cbn; tauto | cbn; tauto | left; cbn; lia | cbn; lia].
Defined.
